(** * Relative Rotation Graph: the numeric pipeline of [rrg_main.py]

    The script builds a price table of eleven sector ETFs and a benchmark,
    derives a standardized relative-strength table [rs] and a standardized
    momentum table [rs_mom], and hands the tail of every column to the plot.

    Cells are numpy [float64] values.  The tables are modelled with IEEE-754
    extended reals: the three special values are kept apart ([NaN], [+inf],
    [-inf]) and finite values are real numbers, so every operation follows
    the IEEE rules for special values and is exact (no rounding, no overflow)
    on finite ones; the two zeros are identified with [+0].  This is the
    model for alignment, row selection, NaN propagation and the shape of the
    formulas.  Where rounding decides the outcome, the standardization of a
    constant column, lines 62-64 are run on primitive binary64 numbers
    instead ([Float64]).

    Dates are integers (day ordinals); a pandas [Series] is a list of
    (date, value) pairs and a [DataFrame] is an index with named columns.
    The price source returns each series with distinct dates in ascending
    order, as the data model of the design document has it: label lookup
    takes the first match, and the outer alignment of two indexes is their
    sorted union.  Column statistics follow [pandas.core.nanops] with
    [skipna=True] and [ddof=1], the defaults of [mean()] and [std()]. *)

From Stdlib Require Import String Ascii.
From Stdlib Require Import Floats.
From Stdlib Require Uint63.
From Stdlib Require Import QArith.
From Stdlib Require Import Reals Lra Lia List ZArith Bool.
From Stdlib Require Import Sorting.Sorted.
Import ListNotations.

Local Open Scope R_scope.

(** ** float64 cells *)

Inductive fl : Type :=
| NaN
| PInf
| NInf
| Fin (x : R).

Definition isnan (v : fl) : bool :=
  match v with NaN => true | _ => false end.

Definition fl_neg (v : fl) : fl :=
  match v with
  | NaN => NaN
  | PInf => NInf
  | NInf => PInf
  | Fin x => Fin (- x)
  end.

Definition fl_add (u v : fl) : fl :=
  match u, v with
  | NaN, _ => NaN
  | _, NaN => NaN
  | PInf, NInf => NaN
  | NInf, PInf => NaN
  | PInf, _ => PInf
  | _, PInf => PInf
  | NInf, _ => NInf
  | _, NInf => NInf
  | Fin x, Fin y => Fin (x + y)
  end.

Definition fl_sub (u v : fl) : fl := fl_add u (fl_neg v).

(** [inf * x] for a finite [x]: undefined at zero, signed otherwise. *)
Definition inf_times (positive : bool) (x : R) : fl :=
  if Req_dec_T x 0 then NaN
  else if Rlt_dec 0 x then (if positive then PInf else NInf)
       else (if positive then NInf else PInf).

Definition fl_mul (u v : fl) : fl :=
  match u, v with
  | NaN, _ => NaN
  | _, NaN => NaN
  | Fin x, Fin y => Fin (x * y)
  | Fin x, PInf => inf_times true x
  | Fin x, NInf => inf_times false x
  | PInf, Fin y => inf_times true y
  | NInf, Fin y => inf_times false y
  | PInf, PInf => PInf
  | NInf, NInf => PInf
  | PInf, NInf => NInf
  | NInf, PInf => NInf
  end.

(** numpy division: [x/0] is an infinity of the sign of [x], [0/0] and
    [inf/inf] are NaN; nothing raises. *)
Definition fl_div (u v : fl) : fl :=
  match u, v with
  | NaN, _ => NaN
  | _, NaN => NaN
  | Fin x, Fin y =>
      if Req_dec_T y 0
      then (if Req_dec_T x 0 then NaN
            else if Rlt_dec 0 x then PInf else NInf)
      else Fin (x / y)
  | Fin _, PInf => Fin 0
  | Fin _, NInf => Fin 0
  | PInf, Fin y => if Rlt_dec y 0 then NInf else PInf
  | NInf, Fin y => if Rlt_dec y 0 then PInf else NInf
  | PInf, PInf => NaN
  | PInf, NInf => NaN
  | NInf, PInf => NaN
  | NInf, NInf => NaN
  end.

(** [np.log]: NaN below zero, [-inf] at zero. *)
Definition fl_log (v : fl) : fl :=
  match v with
  | NaN => NaN
  | PInf => PInf
  | NInf => NaN
  | Fin x =>
      if Req_dec_T x 0 then NInf
      else if Rlt_dec 0 x then Fin (ln x) else NaN
  end.

(** [np.sqrt]: NaN below zero. *)
Definition fl_sqrt (v : fl) : fl :=
  match v with
  | NaN => NaN
  | PInf => PInf
  | NInf => NaN
  | Fin x => if Rlt_dec x 0 then NaN else Fin (sqrt x)
  end.

Definition fl_of_nat (n : nat) : fl := Fin (INR n).

(** ** Series and frames *)

Definition Series : Type := list (Z * fl).

Definition s_index (s : Series) : list Z := map fst s.
Definition s_values (s : Series) : list fl := map snd s.

Record DataFrame : Type := mkDF {
  df_index : list Z;
  df_columns : list (string * list fl)
}.

(** Label lookup in a column laid out along [idx]; a label that is absent
    reads as NaN (pandas reindexing). *)
Fixpoint lookup_at (idx : list Z) (vals : list fl) (d : Z) : fl :=
  match idx, vals with
  | i :: idx', v :: vals' => if Z.eqb i d then v else lookup_at idx' vals' d
  | _, _ => NaN
  end.

Definition reindex (idx : list Z) (vals : list fl) (target : list Z) : list fl :=
  map (lookup_at idx vals) target.

Definition s_reindex (s : Series) (target : list Z) : list fl :=
  reindex (s_index s) (s_values s) target.

Fixpoint set_column (name : string) (col : list fl)
  (cols : list (string * list fl)) : list (string * list fl) :=
  match cols with
  | [] => [(name, col)]
  | (n, c) :: rest =>
      if String.eqb n name then (n, col) :: rest
      else (n, c) :: set_column name col rest
  end.

Fixpoint get_column (name : string) (cols : list (string * list fl)) : list fl :=
  match cols with
  | [] => []
  | (n, c) :: rest => if String.eqb n name then c else get_column name rest
  end.

(** [df[name] = s]: a frame whose index is still empty adopts the index of
    the first non-empty series; afterwards a series is aligned on the
    frame's index. *)
Definition setitem (df : DataFrame) (name : string) (s : Series) : DataFrame :=
  match df with
  | mkDF idx cols =>
      match idx, s with
      | [], _ :: _ =>
          mkDF (s_index s)
               (set_column name (s_reindex s (s_index s))
                  (map (fun c => (fst c, repeat NaN (length s))) cols))
      | _, _ => mkDF idx (set_column name (s_reindex s idx) cols)
      end
  end.

(** [df.join(s)] with [s.name = name]: left join on the index. *)
Definition join (df : DataFrame) (name : string) (s : Series) : DataFrame :=
  mkDF (df_index df)
       (df_columns df ++ [(name, s_reindex s (df_index df))]).

Definition map_columns (f : list fl -> list fl) (df : DataFrame) : DataFrame :=
  mkDF (df_index df) (map (fun c => (fst c, f (snd c))) (df_columns df)).

Fixpoint zip_with (f : fl -> fl -> fl) (a b : list fl) : list fl :=
  match a, b with
  | x :: a', y :: b' => f x y :: zip_with f a' b'
  | _, _ => []
  end.

(** Sorted union of two date indexes (outer alignment). *)
Fixpoint insert_date (d : Z) (l : list Z) : list Z :=
  match l with
  | [] => [d]
  | x :: r =>
      if Z.ltb d x then d :: l
      else if Z.eqb d x then l
      else x :: insert_date d r
  end.

Definition index_union (a b : list Z) : list Z :=
  fold_right insert_date [] (a ++ b).

(** [df.div(col, axis=0)] with a column of the frame itself: same index,
    row by row. *)
Definition div_by_column (df : DataFrame) (by_col : list fl) : DataFrame :=
  map_columns (fun c => zip_with fl_div c by_col) df.

(** [df.div(s, axis=0)] with a series of its own index: both sides are
    aligned on the union of the two indexes. *)
Definition div_by_series (df : DataFrame) (s : Series) : DataFrame :=
  let idx := index_union (df_index df) (s_index s) in
  let by_col := s_reindex s idx in
  mkDF idx
       (map (fun c => (fst c,
                       zip_with fl_div (reindex (df_index df) (snd c) idx) by_col))
            (df_columns df)).

Definition mul_scalar (k : fl) (df : DataFrame) : DataFrame :=
  map_columns (map (fun x => fl_mul x k)) df.

(** [dropna()]: keep the rows without any NaN. *)
Definition row_notna (cols : list (string * list fl)) (t : nat) : bool :=
  forallb (fun c => negb (isnan (nth t (snd c) NaN))) cols.

Fixpoint select {A : Type} (keep : list bool) (l : list A) : list A :=
  match keep, l with
  | k :: keep', x :: l' => if k then x :: select keep' l' else select keep' l'
  | _, _ => []
  end.

Definition dropna (df : DataFrame) : DataFrame :=
  let keep := map (row_notna (df_columns df)) (seq 0 (length (df_index df))) in
  mkDF (select keep (df_index df))
       (map (fun c => (fst c, select keep (snd c))) (df_columns df)).

(** ** Column statistics (pandas [nanops], [skipna=True]) *)

Definition fl_sum (l : list fl) : fl := fold_left fl_add l (Fin 0).

Definition fill0 (l : list fl) : list fl :=
  map (fun x => if isnan x then Fin 0 else x) l.

Definition count_valid (l : list fl) : nat :=
  length (filter (fun x => negb (isnan x)) l).

(** [nanmean]: NaN cells count as zero in the sum and are left out of the
    count; an all-NaN column has mean NaN. *)
Definition mean (l : list fl) : fl :=
  let n := count_valid l in
  if Nat.ltb 0 n then fl_div (fl_sum (fill0 l)) (fl_of_nat n) else NaN.

(** [nanvar] with [ddof = 1]: squared deviations from the mean, NaN cells
    masked to zero, divided by [count - 1]; NaN when [count <= 1]. *)
Definition var (l : list fl) : fl :=
  let n := count_valid l in
  if Nat.leb n 1 then NaN
  else
    let avg := fl_div (fl_sum (fill0 l)) (fl_of_nat n) in
    let sqr := map (fun x => if isnan x then Fin 0
                             else let e := fl_sub avg x in fl_mul e e) l in
    fl_div (fl_sum sqr) (Fin (INR n - 1)).

Definition std (l : list fl) : fl := fl_sqrt (var l).

(** [(df - df.mean()) / df.std()], column by column. *)
Definition standardize (l : list fl) : list fl :=
  let m := mean l in
  let s := std l in
  map (fun x => fl_div (fl_sub x m) s) l.

(** [replace(np.nan, 0)] *)
Definition replace_nan (l : list fl) : list fl :=
  map (fun x => if isnan x then Fin 0 else x) l.

(** ** Column statistics in binary64

    The same computation on primitive binary64 numbers, for the properties
    of lines 62-64 that depend on rounding.  [price] and [bench] are a
    sector's column and the [SP500] column of the price table, row by row.
    The sums run from left to right, as numpy adds a column of fewer than
    eight cells. *)

Module Float64.

Definition of_nat (n : nat) : float := of_uint63 (Uint63.of_Z (Z.of_nat n)).

Definition sum (l : list float) : float := fold_left PrimFloat.add l 0%float.

Definition fill0 (l : list float) : list float :=
  map (fun x => if is_nan x then 0%float else x) l.

Definition count_valid (l : list float) : nat :=
  length (filter (fun x => negb (is_nan x)) l).

Definition mean (l : list float) : float :=
  let n := count_valid l in
  if Nat.ltb 0 n then (sum (fill0 l) / of_nat n)%float else nan.

Definition var (l : list float) : float :=
  let n := count_valid l in
  if Nat.leb n 1 then nan
  else
    let avg := (sum (fill0 l) / of_nat n)%float in
    let sqr := map (fun x => if is_nan x then 0%float
                             else let e := (avg - x)%float in (e * e)%float) l in
    (sum sqr / (of_nat n - 1))%float.

Definition std (l : list float) : float := PrimFloat.sqrt (var l).

Definition standardize (l : list float) : list float :=
  let m := mean l in
  let s := std l in
  map (fun x => ((x - m) / s)%float) l.

Definition replace_nan (l : list float) : list float :=
  map (fun x => if is_nan x then 0%float else x) l.

(** Line 62, one column. *)
Definition ratio (price bench : list float) : list float :=
  map (fun pb => (fst pb / snd pb * 100)%float) (combine price bench).

(** Lines 62-64, one column. *)
Definition rs (price bench : list float) : list float :=
  replace_nan (standardize (ratio price bench)).

End Float64.

(** ** Rolling percent change *)

Definition shift (n : nat) (l : list fl) : list fl :=
  repeat NaN (Nat.min n (length l)) ++ firstn (length l - n) l.

(** Forward fill, the default [fill_method='pad'] of [pct_change]. *)
Fixpoint ffill_from (last : fl) (l : list fl) : list fl :=
  match l with
  | [] => []
  | x :: r => if isnan x then last :: ffill_from last r
              else x :: ffill_from x r
  end.

Definition ffill (l : list fl) : list fl := ffill_from NaN l.

Definition pct_change (periods : nat) (l : list fl) : list fl :=
  let data := ffill l in
  map (fun x => fl_sub x (Fin 1)) (zip_with fl_div data (shift periods data)).

Definition combine_columns (f : fl -> fl -> fl)
  (a b : list (string * list fl)) : list (string * list fl) :=
  map (fun p => (fst (fst p), zip_with f (snd (fst p)) (snd (snd p))))
      (combine a b).

(** Arithmetic between two frames of the same index and columns. *)
Definition frame_op (f : fl -> fl -> fl) (a b : DataFrame) : DataFrame :=
  mkDF (df_index a) (combine_columns f (df_columns a) (df_columns b)).

(** [np.log(1 + df)] *)
Definition log1p_frame (df : DataFrame) : DataFrame :=
  map_columns (map (fun x => fl_log (fl_add (Fin 1) x))) df.

(** ** Positional slicing *)

(** [l[k:]] as Python resolves it: a negative start counts from the end and
    is clipped at the front, a start past the end gives the empty list. *)
Definition iloc_from {A : Type} (k : Z) (l : list A) : list A :=
  let n := Z.of_nat (length l) in
  let start := if Z.ltb k 0 then Z.max 0 (n + k) else Z.min k n in
  skipn (Z.to_nat start) l.

(** [l[-1]]: an IndexError (here [None]) on an empty column. *)
Definition iloc_last {A : Type} (l : list A) : option A :=
  match rev l with
  | [] => None
  | x :: _ => Some x
  end.

(** ** The script *)

Definition tickers_names : list (string * string) :=
  [ ("XLC", "CSRV"); ("XLY", "CD"); ("XLP", "CS"); ("XLE", "EN");
    ("XLF", "FN"); ("XLV", "HC"); ("XLI", "IN"); ("XLB", "MT");
    ("XLRE", "RE"); ("XLK", "IT"); ("XLU", "UT") ]%string.

(** The [if]/[elif] chain on the slider value; no branch binds
    [lookback_period] for any other string. *)
Definition lookback_period (lookback_period_selection : string) : option Z :=
  if String.eqb lookback_period_selection "LTD*" then Some (-1)%Z
  else if String.eqb lookback_period_selection "3D" then Some (-3)%Z
  else if String.eqb lookback_period_selection "7D" then Some (-7)%Z
  else if String.eqb lookback_period_selection "14D" then Some (-14)%Z
  else if String.eqb lookback_period_selection "21D" then Some (-21)%Z
  else if String.eqb lookback_period_selection "50D" then Some (-50)%Z
  else if String.eqb lookback_period_selection "MAX**" then Some 0%Z
  else None.

(** The options offered by [st.select_slider]. *)
Definition slider_options : list string :=
  [ "LTD*"; "3D"; "7D"; "14D"; "21D"; "50D"; "MAX**" ]%string.

Section Pipeline.

(** [yf.download(ticker, period='max')['Adj Close']], the price source. *)
Variable yf_download : string -> Series.

Definition fetch_hist_data (ticker : string) : Series := yf_download ticker.

(** The loop over [tickers_names.items()] filling the empty frame. *)
Definition aprc_sectors : DataFrame :=
  fold_left (fun df kv => setitem df (snd kv) (fetch_hist_data (fst kv)))
            tickers_names (mkDF [] []).

Definition sp500 : Series := yf_download "SPY".

Definition aprc : DataFrame := join aprc_sectors "SP500" sp500.

(** Line 62: the ratio to the benchmark column, in percent. *)
Definition rs_ratio : DataFrame :=
  mul_scalar (Fin 100)
    (div_by_column aprc (get_column "SP500" (df_columns aprc))).

(** Line 63 *)
Definition rs_standardized : DataFrame := map_columns standardize rs_ratio.

(** Line 64 *)
Definition rs : DataFrame := map_columns replace_nan rs_standardized.

(** Line 67 *)
Definition mom_raw : DataFrame :=
  dropna (mul_scalar (Fin 100) (div_by_series aprc sp500)).

Definition mom3 : DataFrame := map_columns (pct_change 63) mom_raw.
Definition mom1 : DataFrame := map_columns (pct_change 21) mom_raw.

(** Line 70 *)
Definition mom_log : DataFrame :=
  frame_op fl_sub (log1p_frame mom3) (log1p_frame mom1).

(** Line 71 *)
Definition mom : DataFrame := map_columns replace_nan mom_log.

(** Line 74 *)
Definition rs_mom_standardized : DataFrame := map_columns standardize mom.

(** Line 75 *)
Definition rs_mom : DataFrame := map_columns replace_nan rs_mom_standardized.

(** The marker trace of one sector: the last point of both columns. *)
Definition marker (etf : string) : option (fl * fl) :=
  match iloc_last (get_column etf (df_columns rs)),
        iloc_last (get_column etf (df_columns rs_mom)) with
  | Some x, Some y => Some (x, y)
  | _, _ => None
  end.

(** The line trace of one sector: the tails of both columns. *)
Definition trail (lookback_period_selection etf : string)
  : option (list fl * list fl) :=
  match lookback_period lookback_period_selection with
  | Some k => Some (iloc_from k (get_column etf (df_columns rs)),
                    iloc_from k (get_column etf (df_columns rs_mom)))
  | None => None
  end.

End Pipeline.

(** The palette of lines 26-29. *)
Definition colors : list string :=
  ["blue"; "orange"; "green"; "red"; "purple";
   "brown"; "pink"; "gray"; "olive"; "cyan"; "magenta"]%string.

(** A [go.Scatter] trace as the loop of lines 112-127 builds it. *)
Record trace : Type := mkTrace {
  tr_mode : string;
  tr_name : string;
  tr_color : string;
  tr_x : list fl;
  tr_y : list fl }.

Section Traces.

Variable yf_download : string -> Series.

(** Lines 112-127, one turn of the loop.  The marker trace is built first;
    [iloc[-1]] raises [IndexError] on an empty column and [colors[i]] past
    the end of the palette, and an exception ends the script ([None]), so
    the line trace is reached only after the marker trace was added. *)
Definition sector_traces (lookback_period_selection : string) (i : nat)
  (etf_names etf : string) : option (list trace) :=
  match marker yf_download etf with
  | None => None
  | Some (mx, my) =>
      match nth_error colors i with
      | None => None
      | Some color =>
          let name := (etf ++ ": " ++ etf_names)%string in
          match trail yf_download lookback_period_selection etf with
          | None => None
          | Some (xs, ys) =>
              Some [mkTrace "markers" name color [mx] [my];
                    mkTrace "lines" name color xs ys]
          end
      end
  end.

(** The loop over [enumerate(tickers_names.items())], adding to [fig]. *)
Fixpoint add_traces (lookback_period_selection : string) (i : nat)
  (items : list (string * string)) (fig : list trace) : option (list trace) :=
  match items with
  | [] => Some fig
  | (etf_names, etf) :: rest =>
      match sector_traces lookback_period_selection i etf_names etf with
      | None => None
      | Some ts => add_traces lookback_period_selection (S i) rest (fig ++ ts)
      end
  end.

Definition figure_traces (lookback_period_selection : string)
  : option (list trace) :=
  add_traces lookback_period_selection 0 tickers_names [].

End Traces.

(** ** The figure

    Plot coordinates are the decimal literals of the script, kept exact as
    rationals. *)

(** [str.upper()] on ASCII letters. *)
Definition upper_ascii (c : ascii) : ascii :=
  let n := nat_of_ascii c in
  if (Nat.leb 97 n && Nat.leb n 122)%bool then ascii_of_nat (n - 32) else c.

Fixpoint upper (s : string) : string :=
  match s with
  | EmptyString => EmptyString
  | String c rest => String (upper_ascii c) (upper rest)
  end.

Record rect : Type := mkRect {
  r_x0 : Q; r_y0 : Q; r_x1 : Q; r_y1 : Q; r_fillcolor : string
}.


Record annotation : Type := mkAnnotation {
  an_x : Q; an_y : Q; an_text : string
}.

(** Lines 105-108: the four shaded rectangles. *)
Definition quadrant_rects : list rect :=
  [ mkRect 0 0 3.2 2.2 "lightgreen";
    mkRect (-3.2) 0 0 2.2 "lightblue";
    mkRect (-3.2) (-2.2) 0 0 "#FFCCCB";
    mkRect 0 (-2.2) 3.2 0 "lightyellow" ]%Q.


(** Lines 132-135: the four quadrant labels. *)
Definition annotations : list annotation :=
  [ mkAnnotation 1.5 1.5 (upper "Leading");
    mkAnnotation 1.5 (-1.5) (upper "Weakening");
    mkAnnotation (-1.5) (-1.5) (upper "Lagging");
    mkAnnotation (-1.5) 1.5 (upper "Improving") ]%Q.


Definition in_rect (r : rect) (x y : Q) : bool :=
  (Qle_bool (r_x0 r) x && Qle_bool x (r_x1 r)
   && Qle_bool (r_y0 r) y && Qle_bool y (r_y1 r))%bool.

(** The quadrants as the design document names them, by the signs of RS
    and MOM. *)
Inductive quadrant : Type := Leading | Weakening | Lagging | Improving.

Definition quadrant_name (q : quadrant) : string :=
  match q with
  | Leading => "Leading"
  | Weakening => "Weakening"
  | Lagging => "Lagging"
  | Improving => "Improving"
  end.

Definition Qpositive (v : Q) : bool := negb (Qle_bool v 0).
Definition Qnegative (v : Q) : bool := negb (Qle_bool 0 v).

Definition quadrant_of (rs_value mom_value : Q) : option quadrant :=
  if (Qpositive rs_value && Qpositive mom_value)%bool then Some Leading
  else if (Qpositive rs_value && Qnegative mom_value)%bool then Some Weakening
  else if (Qnegative rs_value && Qnegative mom_value)%bool then Some Lagging
  else if (Qnegative rs_value && Qpositive mom_value)%bool then Some Improving
  else None.

(** ** The formulas of the design document

    Written from the document's words, pointwise in the date position [t],
    to be compared with the column-wise code above. *)

(** [pct[t] = ratio[t]/ratio[t-L] - 1], undefined on the first [L] dates. *)
Definition pct_spec (L : nat) (ratio : list fl) (t : nat) : fl :=
  if Nat.ltb t L then NaN
  else fl_sub (fl_div (nth t ratio NaN) (nth (t - L) ratio NaN)) (Fin 1).

(** Undefined results collapse to zero. *)
Definition sanitize (v : fl) : fl := if isnan v then Fin 0 else v.

(** [MOM_raw[t] = ln(1 + pctL[t]) - ln(1 + pctS[t])] with [L = 63] and
    [S = 21], undefined replaced by 0. *)
Definition mom_raw_spec (ratio : list fl) (t : nat) : fl :=
  sanitize (fl_sub (fl_log (fl_add (Fin 1) (pct_spec 63 ratio t)))
                   (fl_log (fl_add (Fin 1) (pct_spec 21 ratio t)))).

(** The dates on which a series has a value. *)
Definition available (l : list fl) : list fl :=
  filter (fun x => negb (isnan x)) l.

(** [mean(ratio[i,.])] over the available dates. *)
Definition mean_spec (l : list fl) : fl :=
  let xs := available l in
  fl_div (fl_sum xs) (fl_of_nat (length xs)).

(** [stddev(ratio[i,.])], sample convention: the squared deviations from the
    mean over the available dates, divided by their number minus one. *)
Definition std_spec (l : list fl) : fl :=
  let xs := available l in
  let m := mean_spec l in
  fl_sqrt
    (fl_div (fl_sum (map (fun x => fl_mul (fl_sub x m) (fl_sub x m)) xs))
            (Fin (INR (length xs) - 1))).

(** [RS = (ratio - mean) / stddev], undefined replaced by 0. *)
Definition standard_score_spec (l : list fl) (x : fl) : fl :=
  sanitize (fl_div (fl_sub x (mean_spec l)) (std_spec l)).

(** A cell that is neither NaN nor an infinity. *)
Definition finite (v : fl) : Prop := exists r, v = Fin r.

(** ** Frame shape and row coverage *)

Definition col_names (df : DataFrame) : list string := map fst (df_columns df).

(** Every column runs along the whole index. *)
Definition wf_frame (df : DataFrame) : Prop :=
  Forall (fun c => length (snd c) = length (df_index df)) (df_columns df).

(** The column names after [df[name] = ...]. *)
Fixpoint add_name (name : string) (names : list string) : list string :=
  match names with
  | [] => [name]
  | n :: rest => if String.eqb n name then n :: rest else n :: add_name name rest
  end.

Section Coverage.

Variable yf_download : string -> Series.

(** The ratio of a price column to the benchmark series at date [d], both
    looked up by date. *)
Definition ratio_at (col : list fl) (d : Z) : fl :=
  fl_mul (fl_div (lookup_at (df_index (aprc yf_download)) col d)
                 (lookup_at (s_index (sp500 yf_download))
                            (s_values (sp500 yf_download)) d))
         (Fin 100).

(** A date is row-complete when no column of the table has an undefined
    ratio on it. *)
Definition row_complete (d : Z) : bool :=
  forallb (fun c => negb (isnan (ratio_at (snd c) d)))
          (df_columns (aprc yf_download)).

End Coverage.

(** The last [n] entries of a column, all of them when it has fewer. *)
Definition tail_n {A : Type} (n : nat) (l : list A) : list A :=
  skipn (length l - n) l.

(** The (date, RS, MOM) rows of one sector, date by date along the RS
    index. *)
Definition rrg_series (yf_download : string -> Series) (etf : string)
  : list (Z * (fl * fl)) :=
  combine (df_index (rs yf_download))
          (combine (get_column etf (df_columns (rs yf_download)))
                   (get_column etf (df_columns (rs_mom yf_download)))).

(** ** Sample price sources

    Small tables used to run the pipeline on concrete prices. *)

(** Sixty-four trading days, benchmark flat at 1. *)
Definition bench64 : Series :=
  map (fun d => (Z.of_nat d, Fin 1)) (seq 0 64).

(** Every sector flat at 1 except for a price of 2 on day 42. *)
Definition bump64 : Series :=
  map (fun d => (Z.of_nat d, if Nat.eqb d 42 then Fin 2 else Fin 1)) (seq 0 64).

Definition yf_bump (ticker : string) : Series :=
  if String.eqb ticker "SPY" then bench64 else bump64.

(** The ratio column of any sector under [yf_bump]. *)
Definition ratio_bump : list fl :=
  map (fun d => Fin ((if Nat.eqb d 42 then 2 else 1) / 1 * 100)) (seq 0 64).

(** The raw momentum column of any sector under [yf_bump]. *)
Definition mom_bump : list fl := repeat (Fin 0) 63 ++ [Fin (ln 2)].

(** Two trading days; XLY has no quote on the second one. *)
Definition yf_gap (ticker : string) : Series :=
  if String.eqb ticker "XLY" then [(0%Z, Fin 1)]
  else [(0%Z, Fin 1); (1%Z, Fin 2)].

(** ** Building the price table *)

(** The index an empty frame ends up with after a run of column
    assignments: that of the first series that is not empty. *)
Fixpoint first_index (l : list Series) : list Z :=
  match l with
  | [] => []
  | [] :: rest => first_index rest
  | (p :: s) :: _ => s_index (p :: s)
  end.

(** Two trading days, every sector rising from 1 to 2 against a flat
    benchmark. *)
Definition yf_rise (ticker : string) : Series :=
  if String.eqb ticker "SPY" then [(0%Z, Fin 1); (1%Z, Fin 1)]
  else [(0%Z, Fin 1); (1%Z, Fin 2)].

(** The area covered by the four shaded rectangles. *)
Definition in_plot_area (x y : Q) : bool :=
  (Qle_bool (-3.2) x && Qle_bool x 3.2
   && Qle_bool (-2.2) y && Qle_bool y 2.2)%bool.

(** Lines 44-48: the counter of the download loop and the values it hands
    to the progress bar, [count / len(tickers_names)] after each download. *)
Definition download_progress (names : list (string * string)) : list Q :=
  snd (fold_left
         (fun (st : nat * list Q) (_ : string * string) =>
            let count := S (fst st) in
            (count, snd st ++ [Z.of_nat count # Pos.of_nat (length names)]))
         names (0%nat, [])).

(** The marker and the line of one sector, as the loop adds them. *)
Definition traces_of_pair (p : trace * trace) : list trace := [fst p; snd p].

(** What a pair of traces of one sector looks like: a one-point marker trace
    and a line trace of the same name and color, the marker being the last
    point of the line. *)
Definition marker_on_line_end (p : trace * trace) : Prop :=
  tr_mode (fst p) = "markers"%string
  /\ tr_mode (snd p) = "lines"%string
  /\ tr_name (snd p) = tr_name (fst p)
  /\ tr_color (snd p) = tr_color (fst p)
  /\ exists mx my,
       tr_x (fst p) = [mx] /\ tr_y (fst p) = [my]
       /\ iloc_last (tr_x (snd p)) = Some mx
       /\ iloc_last (tr_y (snd p)) = Some my.

(** The ratio of a price to itself, in percent: 100 for a non-zero number,
    undefined for zero, an infinity or a missing price. *)
Definition self_ratio (p : fl) : fl :=
  match p with
  | Fin b => if Req_dec_T b 0 then NaN else Fin 100
  | _ => NaN
  end.

(** Sixty-four trading days, every sector flat at 2 against a benchmark flat
    at 1. *)
Definition yf_level (ticker : string) : Series :=
  if String.eqb ticker "SPY" then bench64
  else map (fun d => (Z.of_nat d, Fin 2)) (seq 0 64).

(** ** The operations on small inputs *)

Example fl_div_by_zero :
  fl_div (Fin 1) (Fin 0) = PInf /\ fl_div (Fin 0) (Fin 0) = NaN
  /\ fl_div (Fin (-1)) (Fin 0) = NInf.
Proof.
  unfold fl_div.
  destruct (Req_dec_T 0 0) as [_|H]; [|lra].
  destruct (Req_dec_T 1 0) as [H|_]; [lra|].
  destruct (Req_dec_T (-1) 0) as [H|_]; [lra|].
  destruct (Rlt_dec 0 1) as [_|H]; [|lra].
  destruct (Rlt_dec 0 (-1)) as [H|_]; [lra|].
  repeat split.
Qed.

Example fl_log_edges :
  fl_log (Fin 0) = NInf /\ fl_log (Fin (-1)) = NaN /\ fl_log NaN = NaN.
Proof.
  unfold fl_log.
  destruct (Req_dec_T 0 0) as [_|H]; [|lra].
  destruct (Req_dec_T (-1) 0) as [H|_]; [lra|].
  destruct (Rlt_dec 0 (-1)) as [H|_]; [lra|].
  repeat split.
Qed.

Example setitem_adopts_first_index :
  setitem (mkDF [] []) "CSRV" [(3%Z, Fin 1); (5%Z, Fin 2)]
  = mkDF [3%Z; 5%Z] [("CSRV"%string, [Fin 1; Fin 2])].
Proof. reflexivity. Qed.

Example setitem_aligns_on_index :
  setitem (mkDF [3%Z; 5%Z] [("CSRV"%string, [Fin 1; Fin 2])])
          "CD" [(5%Z, Fin 7); (6%Z, Fin 8)]
  = mkDF [3%Z; 5%Z]
         [("CSRV"%string, [Fin 1; Fin 2]); ("CD"%string, [NaN; Fin 7])].
Proof. reflexivity. Qed.

Example index_union_sorted :
  index_union [1%Z; 3%Z] [2%Z; 3%Z; 4%Z] = [1%Z; 2%Z; 3%Z; 4%Z].
Proof. reflexivity. Qed.

Example dropna_drops_any_nan :
  dropna (mkDF [0%Z; 1%Z; 2%Z]
               [("a"%string, [Fin 1; NaN; Fin 3]);
                ("b"%string, [Fin 4; Fin 5; PInf])])
  = mkDF [0%Z; 2%Z]
         [("a"%string, [Fin 1; Fin 3]); ("b"%string, [Fin 4; PInf])].
Proof. reflexivity. Qed.

Example shift_pads_front :
  shift 2 [Fin 1; Fin 2; Fin 3] = [NaN; NaN; Fin 1]
  /\ shift 5 [Fin 1; Fin 2; Fin 3] = [NaN; NaN; NaN].
Proof. split; reflexivity. Qed.

Example iloc_from_tail :
  iloc_from (-2) [1; 2; 3]%nat = [2; 3]%nat
  /\ iloc_from (-7) [1; 2; 3]%nat = [1; 2; 3]%nat
  /\ iloc_from 0 [1; 2; 3]%nat = [1; 2; 3]%nat.
Proof. repeat split. Qed.

Example lookback_period_default : lookback_period "7D" = Some (-7)%Z.
Proof. reflexivity. Qed.

Example lookback_period_total_on_slider :
  map lookback_period slider_options
  = [Some (-1); Some (-3); Some (-7); Some (-14); Some (-21); Some (-50);
     Some 0]%Z.
Proof. reflexivity. Qed.

Example upper_label : upper "Rate of Change" = "RATE OF CHANGE"%string.
Proof. reflexivity. Qed.

(** ** Columns of a derived frame *)

Lemma get_column_map (f : list fl -> list fl) (name : string)
  (cols : list (string * list fl)) :
  f [] = [] ->
  get_column name (map (fun c => (fst c, f (snd c))) cols)
  = f (get_column name cols).
Proof.
  intros Hnil. induction cols as [|[n c] rest IH]; simpl.
  - symmetry; exact Hnil.
  - destruct (String.eqb n name); [reflexivity | exact IH].
Qed.

Lemma get_column_map_columns (f : list fl -> list fl) (name : string)
  (df : DataFrame) :
  f [] = [] ->
  get_column name (df_columns (map_columns f df))
  = f (get_column name (df_columns df)).
Proof. intros Hnil. unfold map_columns; simpl. now apply get_column_map. Qed.

Lemma replace_nan_not_nan (l : list fl) :
  Forall (fun x => isnan x = false) (replace_nan l).
Proof.
  unfold replace_nan. induction l as [|x l IH]; simpl; constructor; auto.
  destruct x; reflexivity.
Qed.

Lemma map_columns_Forall (P : list fl -> Prop) (f : list fl -> list fl)
  (df : DataFrame) :
  (forall l, P (f l)) ->
  Forall (fun c => P (snd c)) (df_columns (map_columns f df)).
Proof.
  intros H. unfold map_columns; simpl.
  induction (df_columns df) as [|c rest IH]; simpl; constructor;
    [simpl; apply H | exact IH].
Qed.

(** C10: after the pipeline, no cell of the final RS table and no cell of the
    final standardized momentum table is NaN. *)
Theorem final_tables_have_no_nan (yf_download : string -> Series) :
  Forall (fun c => Forall (fun x => isnan x = false) (snd c))
         (df_columns (rs yf_download))
  /\ Forall (fun c => Forall (fun x => isnan x = false) (snd c))
            (df_columns (rs_mom yf_download)).
Proof.
  split; unfold rs, rs_mom; apply map_columns_Forall; apply replace_nan_not_nan.
Qed.

(** ** Positions in zipped, shifted and selected columns *)

Lemma zip_with_length (f : fl -> fl -> fl) (a b : list fl) :
  length (zip_with f a b) = Nat.min (length a) (length b).
Proof.
  revert b; induction a as [|x a IH]; intros [|y b]; simpl; auto.
Qed.

Lemma zip_with_nth_error (f : fl -> fl -> fl) (a b : list fl) (t : nat) (x y : fl) :
  nth_error a t = Some x -> nth_error b t = Some y ->
  nth_error (zip_with f a b) t = Some (f x y).
Proof.
  revert b t; induction a as [|u a IH]; intros [|v b] [|t]; simpl;
    try discriminate.
  - intros [= ->] [= ->]; reflexivity.
  - apply IH.
Qed.

Lemma nth_error_nth_default (l : list fl) (t : nat) :
  (t < length l)%nat -> nth_error l t = Some (nth t l NaN).
Proof. intros H. now apply nth_error_nth'. Qed.

Lemma shift_length (n : nat) (l : list fl) : length (shift n l) = length l.
Proof.
  unfold shift. rewrite length_app, repeat_length, length_firstn. lia.
Qed.

Lemma shift_nth (n : nat) (l : list fl) (t : nat) :
  (t < length l)%nat ->
  nth t (shift n l) NaN = if Nat.ltb t n then NaN else nth (t - n) l NaN.
Proof.
  intros Hin. unfold shift.
  destruct (Nat.ltb_spec t n) as [Hlt|Hge].
  - rewrite app_nth1 by (rewrite repeat_length; lia).
    apply nth_repeat_lt. lia.
  - rewrite app_nth2 by (rewrite repeat_length; lia).
    rewrite repeat_length.
    replace (Nat.min n (length l)) with n by lia.
    rewrite nth_firstn.
    destruct (Nat.ltb_spec (t - n) (length l - n)); [reflexivity | lia].
Qed.

Lemma ffill_from_no_nan (last : fl) (l : list fl) :
  Forall (fun x => isnan x = false) l -> ffill_from last l = l.
Proof.
  intros H; revert last; induction H as [|x l Hx _ IH]; intros last; simpl.
  - reflexivity.
  - rewrite Hx. f_equal. apply IH.
Qed.

Lemma pct_change_nth_error (L : nat) (r : list fl) (t : nat) :
  Forall (fun x => isnan x = false) r ->
  (t < length r)%nat ->
  nth_error (pct_change L r) t = Some (pct_spec L r t).
Proof.
  intros Hr Ht. unfold pct_change, ffill. rewrite (ffill_from_no_nan _ _ Hr).
  rewrite nth_error_map.
  rewrite (zip_with_nth_error fl_div r (shift L r) t
             (nth t r NaN) (nth t (shift L r) NaN)).
  - simpl. f_equal. unfold pct_spec. rewrite shift_nth by exact Ht.
    destruct (Nat.ltb t L); [|reflexivity].
    destruct (nth t r NaN); reflexivity.
  - now apply nth_error_nth_default.
  - apply nth_error_nth_default. now rewrite shift_length.
Qed.

(** ** Rows kept by [dropna] *)

Lemma select_nil {A : Type} (keep : list bool) : select keep (@nil A) = [].
Proof. destruct keep as [|[|] keep]; reflexivity. Qed.

Lemma get_column_In (name : string) (cols : list (string * list fl)) :
  get_column name cols = [] \/ In (name, get_column name cols) cols.
Proof.
  induction cols as [|[n c] rest IH]; simpl.
  - now left.
  - destruct (String.eqb_spec n name) as [->|Hne].
    + right; now left.
    + destruct IH as [IH|IH]; [now left | right; now right].
Qed.

Lemma select_seq_Forall (g : nat -> bool) (P : fl -> Prop) (c : list fl) :
  forall a n,
    (forall i, (i < length c)%nat -> g (a + i)%nat = true -> P (nth i c NaN)) ->
    Forall P (select (map g (seq a n)) c).
Proof.
  induction c as [|x c IH]; intros a n H.
  - rewrite select_nil. constructor.
  - destruct n as [|n]; simpl; [constructor|].
    assert (Hrest : Forall P (select (map g (seq (S a) n)) c)).
    { apply IH. intros i Hi Hg. apply (H (S i)); simpl; [lia|].
      now rewrite Nat.add_succ_r. }
    destruct (g a) eqn:Hga; [|exact Hrest].
    constructor; [|exact Hrest].
    apply (H 0%nat); simpl; [lia|]. now rewrite Nat.add_0_r.
Qed.

Lemma row_notna_cell (cols : list (string * list fl)) (name : string)
  (c : list fl) (t : nat) :
  In (name, c) cols -> row_notna cols t = true -> isnan (nth t c NaN) = false.
Proof.
  intros Hin Hrow. unfold row_notna in Hrow.
  rewrite forallb_forall in Hrow. specialize (Hrow _ Hin). simpl in Hrow.
  now destruct (isnan (nth t c NaN)).
Qed.

Lemma dropna_no_nan (df : DataFrame) (name : string) :
  Forall (fun x => isnan x = false)
         (get_column name (df_columns (dropna df))).
Proof.
  unfold dropna; simpl.
  rewrite (get_column_map (select _)) by apply select_nil.
  destruct (get_column_In name (df_columns df)) as [Hnil|Hin].
  - rewrite Hnil, select_nil. constructor.
  - apply select_seq_Forall. intros i _ Hrow. simpl in Hrow.
    eapply row_notna_cell; eauto.
Qed.

(** ** The momentum column of one sector *)

Lemma get_column_combine (f : fl -> fl -> fl) (g h : list fl -> list fl)
  (name : string) (cols : list (string * list fl)) :
  g [] = [] ->
  get_column name
    (combine_columns f (map (fun c => (fst c, g (snd c))) cols)
                       (map (fun c => (fst c, h (snd c))) cols))
  = zip_with f (g (get_column name cols)) (h (get_column name cols)).
Proof.
  intros Hg. unfold combine_columns.
  induction cols as [|[n c] rest IH]; simpl.
  - now rewrite Hg.
  - destruct (String.eqb n name); [reflexivity | exact IH].
Qed.

Lemma mom_log_column (yf_download : string -> Series) (etf : string) :
  let r := get_column etf (df_columns (mom_raw yf_download)) in
  get_column etf (df_columns (mom_log yf_download))
  = zip_with fl_sub
      (map (fun x => fl_log (fl_add (Fin 1) x)) (pct_change 63 r))
      (map (fun x => fl_log (fl_add (Fin 1) x)) (pct_change 21 r)).
Proof.
  intros r. unfold mom_log, frame_op, log1p_frame, mom3, mom1, map_columns.
  cbn [df_columns]. rewrite !map_map. cbn [fst snd].
  apply (get_column_combine fl_sub
           (fun c => map (fun x => fl_log (fl_add (Fin 1) x)) (pct_change 63 c))
           (fun c => map (fun x => fl_log (fl_add (Fin 1) x)) (pct_change 21 c))).
  reflexivity.
Qed.

Lemma pct_change_length (L : nat) (r : list fl) :
  Forall (fun x => isnan x = false) r -> length (pct_change L r) = length r.
Proof.
  intros Hr. unfold pct_change, ffill. rewrite (ffill_from_no_nan _ _ Hr).
  rewrite length_map, zip_with_length, shift_length. lia.
Qed.

Lemma mom_log_nth_error (yf_download : string -> Series) (etf : string) (t : nat) :
  let r := get_column etf (df_columns (mom_raw yf_download)) in
  (t < length r)%nat ->
  nth_error (get_column etf (df_columns (mom_log yf_download))) t
  = Some (fl_sub (fl_log (fl_add (Fin 1) (pct_spec 63 r t)))
                 (fl_log (fl_add (Fin 1) (pct_spec 21 r t)))).
Proof.
  intros r Ht. rewrite mom_log_column. fold r.
  assert (Hr : Forall (fun x => isnan x = false) r) by apply dropna_no_nan.
  apply zip_with_nth_error; rewrite nth_error_map;
    rewrite pct_change_nth_error by assumption; reflexivity.
Qed.

Lemma mom_nth_error (yf_download : string -> Series) (etf : string) (t : nat) :
  let r := get_column etf (df_columns (mom_raw yf_download)) in
  (t < length r)%nat ->
  nth_error (get_column etf (df_columns (mom yf_download))) t
  = Some (mom_raw_spec r t).
Proof.
  intros r Ht. unfold mom.
  rewrite get_column_map_columns by reflexivity.
  unfold replace_nan. rewrite nth_error_map.
  rewrite mom_log_nth_error by exact Ht. reflexivity.
Qed.

Lemma mom_column_length (yf_download : string -> Series) (etf : string) :
  length (get_column etf (df_columns (mom yf_download)))
  = length (get_column etf (df_columns (mom_raw yf_download))).
Proof.
  unfold mom. rewrite get_column_map_columns by reflexivity.
  unfold replace_nan. rewrite length_map, mom_log_column.
  rewrite zip_with_length, !length_map, !pct_change_length
    by apply dropna_no_nan.
  lia.
Qed.

Lemma mom_raw_spec_early (r : list fl) (t : nat) :
  (t < 63)%nat -> mom_raw_spec r t = Fin 0.
Proof.
  intros Ht. unfold mom_raw_spec, pct_spec.
  destruct (Nat.ltb_spec t 63) as [_|H]; [reflexivity | lia].
Qed.

(** ** Evaluating cells on finite values *)

Lemma fl_div_fin (a b : R) : b <> 0 -> fl_div (Fin a) (Fin b) = Fin (a / b).
Proof.
  intros H. unfold fl_div. destruct (Req_dec_T b 0); [contradiction | reflexivity].
Qed.

Lemma fl_log_fin (a : R) : 0 < a -> fl_log (Fin a) = Fin (ln a).
Proof.
  intros H. unfold fl_log.
  destruct (Req_dec_T a 0); [lra|]. destruct (Rlt_dec 0 a); [reflexivity | lra].
Qed.

Lemma fl_sqrt_fin (a : R) : 0 <= a -> fl_sqrt (Fin a) = Fin (sqrt a).
Proof.
  intros H. unfold fl_sqrt. destruct (Rlt_dec a 0); [lra | reflexivity].
Qed.

(** Structural evaluation of the alignment steps, cell arithmetic left
    folded; then the divisions of finite prices; then the rest. *)
Ltac eval_frame :=
  lazy -[fl_div fl_mul fl_log fl_sqrt fl_add fl_sub dropna standardize
         IZR INR Rdiv Rmult Rplus Rminus Ropp Rinv ln sqrt];
  rewrite ?fl_div_fin by lra;
  lazy -[fl_log fl_sqrt standardize
         IZR INR Rdiv Rmult Rplus Rminus Ropp Rinv ln sqrt].

Lemma mom_raw_bump_column :
  get_column "CSRV" (df_columns (mom_raw yf_bump)) = ratio_bump.
Proof. unfold mom_raw. eval_frame. reflexivity. Qed.

(** C3: the long window is 63 periods and the short one 21 over the
    row-complete ratio [r] of a sector: [mom3[t] = r[t]/r[t-63] - 1] and
    [mom1[t] = r[t]/r[t-21] - 1] (undefined on the first 63, resp. 21,
    dates), and the raw momentum is [ln(1 + mom3[t]) - ln(1 + mom1[t])]
    with an undefined result replaced by 0. *)
Theorem mom_is_log_difference_of_windows
  (yf_download : string -> Series) (etf : string) (t : nat) :
  let r := get_column etf (df_columns (mom_raw yf_download)) in
  (t < length r)%nat ->
  nth_error (get_column etf (df_columns (mom3 yf_download))) t
  = Some (pct_spec 63 r t)
  /\ nth_error (get_column etf (df_columns (mom1 yf_download))) t
     = Some (pct_spec 21 r t)
  /\ nth_error (get_column etf (df_columns (mom yf_download))) t
     = Some (sanitize
               (fl_sub (fl_log (fl_add (Fin 1) (pct_spec 63 r t)))
                       (fl_log (fl_add (Fin 1) (pct_spec 21 r t))))).
Proof.
  intros r Ht.
  assert (Hr : Forall (fun x => isnan x = false) r) by apply dropna_no_nan.
  repeat split.
  - unfold mom3. rewrite get_column_map_columns by reflexivity.
    now apply pct_change_nth_error.
  - unfold mom1. rewrite get_column_map_columns by reflexivity.
    now apply pct_change_nth_error.
  - now apply mom_nth_error.
Qed.

Lemma mom_is_log_difference_of_windows_witness :
  (63 < length (get_column "CSRV" (df_columns (mom_raw yf_bump))))%nat
  /\ nth_error (get_column "CSRV" (df_columns (mom yf_bump))) 63
     = Some (sanitize
               (fl_sub
                  (fl_log (fl_add (Fin 1)
                     (pct_spec 63
                        (get_column "CSRV" (df_columns (mom_raw yf_bump))) 63)))
                  (fl_log (fl_add (Fin 1)
                     (pct_spec 21
                        (get_column "CSRV" (df_columns (mom_raw yf_bump))) 63))))).
Proof.
  assert (H : (63 < length (get_column "CSRV" (df_columns (mom_raw yf_bump))))%nat).
  { rewrite mom_raw_bump_column. vm_compute. lia. }
  split; [exact H|].
  exact (proj2 (proj2 (mom_is_log_difference_of_windows yf_bump "CSRV" 63 H))).
Defined.

(** C7: the raw momentum of a sector is 0 at each of the first 63 dates of
    the row-complete history, hence at every date when that history has
    fewer than 63 points. *)
Theorem mom_zero_within_long_window
  (yf_download : string -> Series) (etf : string) :
  let r := get_column etf (df_columns (mom_raw yf_download)) in
  let m := get_column etf (df_columns (mom yf_download)) in
  length m = length r
  /\ (forall t, (t < 63)%nat -> (t < length r)%nat ->
                nth_error m t = Some (Fin 0))
  /\ ((length r < 63)%nat -> Forall (fun x => x = Fin 0) m).
Proof.
  intros r m.
  assert (Hlen : length m = length r) by apply mom_column_length.
  assert (Hearly : forall t, (t < 63)%nat -> (t < length r)%nat ->
                             nth_error m t = Some (Fin 0)).
  { intros t H63 Ht. unfold m. rewrite mom_nth_error by exact Ht.
    now rewrite mom_raw_spec_early. }
  repeat split; auto.
  intros Hshort. apply Forall_forall. intros x Hx.
  apply In_nth_error in Hx. destruct Hx as [t Hx].
  assert (Ht : (t < length m)%nat).
  { apply nth_error_Some. rewrite Hx. discriminate. }
  rewrite Hearly in Hx by lia. congruence.
Qed.

Lemma mom_zero_within_long_window_witness :
  (62 < 63)%nat
  /\ (62 < length (get_column "CSRV" (df_columns (mom_raw yf_bump))))%nat
  /\ nth_error (get_column "CSRV" (df_columns (mom yf_bump))) 62
     = Some (Fin 0).
Proof.
  assert (H : (62 < length (get_column "CSRV" (df_columns (mom_raw yf_bump))))%nat).
  { rewrite mom_raw_bump_column. vm_compute. lia. }
  repeat split; [lia | exact H |].
  apply (proj1 (proj2 (mom_zero_within_long_window yf_bump "CSRV")) 62%nat);
    [lia | exact H].
Defined.

(** ** Column statistics against their textbook formulas *)

Lemma fl_add_0_r (u : fl) : fl_add u (Fin 0) = u.
Proof. destruct u; simpl; try reflexivity. f_equal. lra. Qed.

Lemma fl_div_nan_r (u : fl) : fl_div u NaN = NaN.
Proof. destruct u; reflexivity. Qed.

Lemma fl_sub_nan_r (u : fl) : fl_sub u NaN = NaN.
Proof. destruct u; reflexivity. Qed.

Lemma fl_sq_sub_comm (u v : fl) :
  fl_mul (fl_sub u v) (fl_sub u v) = fl_mul (fl_sub v u) (fl_sub v u).
Proof.
  destruct u, v; simpl; try reflexivity. f_equal. ring.
Qed.

Lemma fold_masked_available (g : fl -> fl) (l : list fl) (acc : fl) :
  fold_left fl_add (map (fun x => if isnan x then Fin 0 else g x) l) acc
  = fold_left fl_add (map g (available l)) acc.
Proof.
  revert acc; induction l as [|x l IH]; intros acc; simpl; [reflexivity|].
  destruct (isnan x); simpl.
  - rewrite fl_add_0_r. apply IH.
  - apply IH.
Qed.

Lemma fl_sum_fill0 (l : list fl) : fl_sum (fill0 l) = fl_sum (available l).
Proof.
  unfold fl_sum, fill0.
  rewrite (fold_masked_available (fun x => x)). now rewrite map_id.
Qed.

Lemma count_valid_available (l : list fl) :
  count_valid l = length (available l).
Proof. reflexivity. Qed.

Lemma mean_spec_correct (l : list fl) : mean l = mean_spec l.
Proof.
  unfold mean, mean_spec. rewrite fl_sum_fill0, count_valid_available.
  destruct (available l) as [|x xs] eqn:E; [|reflexivity].
  simpl. unfold fl_sum, fl_of_nat; simpl.
  destruct (Req_dec_T 0 0) as [_|H]; [reflexivity | lra].
Qed.

Lemma std_spec_correct (l : list fl) :
  (2 <= count_valid l)%nat -> std l = std_spec l.
Proof.
  intros Hn. unfold std, std_spec, var.
  destruct (Nat.leb_spec (count_valid l) 1) as [H|_]; [lia|].
  f_equal. f_equal.
  unfold fl_sum at 1.
  rewrite (fold_masked_available
             (fun x => let e := fl_sub (fl_div (fl_sum (fill0 l))
                                               (fl_of_nat (count_valid l))) x
                       in fl_mul e e)).
  unfold fl_sum at 2. f_equal. apply map_ext. intros x. cbv zeta.
  rewrite fl_sq_sub_comm. unfold mean_spec.
  now rewrite fl_sum_fill0, count_valid_available.
Qed.

Lemma INR_1 : INR 1 = 1.
Proof. reflexivity. Qed.

(** With a single observation the sample deviation is undefined both ways. *)
Lemma std_spec_single (l : list fl) :
  count_valid l = 1%nat -> std_spec l = NaN.
Proof.
  intros H1. unfold std_spec, mean_spec.
  rewrite count_valid_available in H1.
  destruct (available l) as [|x [|y xs]]; try discriminate.
  clear H1. unfold fl_sum, fl_of_nat. cbn [length map fold_left].
  rewrite INR_1.
  assert (Hnx : isnan (fl_add (Fin 0) x) = isnan x) by (destruct x; reflexivity).
  destruct x as [| | |a]; cbn [fl_add].
  - reflexivity.
  - unfold fl_div at 2. destruct (Rlt_dec 1 0); [lra|]. reflexivity.
  - unfold fl_div at 2. destruct (Rlt_dec 1 0); [lra|]. reflexivity.
  - rewrite fl_div_fin by lra. cbn [fl_sub fl_neg fl_add fl_mul].
    unfold fl_div.
    destruct (Req_dec_T (1 - 1) 0) as [_|H]; [|lra].
    match goal with |- context [Req_dec_T ?e 0] =>
      destruct (Req_dec_T e 0) as [_|H]; [reflexivity | exfalso; apply H; field]
    end.
Qed.

Lemma std_single (l : list fl) : count_valid l = 1%nat -> std l = NaN.
Proof. intros H. unfold std, var. rewrite H. reflexivity. Qed.

(** The standardized cell computed by pandas is the standard score of the
    design document. *)
Lemma standardize_cell_spec (l : list fl) (x : fl) :
  fl_div (fl_sub x (mean l)) (std l)
  = fl_div (fl_sub x (mean_spec l)) (std_spec l).
Proof.
  rewrite <- mean_spec_correct.
  destruct (count_valid l) as [|[|n]] eqn:Hn.
  - unfold mean. rewrite Hn. simpl. now rewrite fl_sub_nan_r.
  - rewrite std_single, std_spec_single by exact Hn. reflexivity.
  - rewrite std_spec_correct by lia. reflexivity.
Qed.

(** ** The relative-strength column of one sector *)

Lemma rs_ratio_column (yf_download : string -> Series) (etf : string) :
  get_column etf (df_columns (rs_ratio yf_download))
  = map (fun x => fl_mul x (Fin 100))
        (zip_with fl_div
           (get_column etf (df_columns (aprc yf_download)))
           (get_column "SP500" (df_columns (aprc yf_download)))).
Proof.
  unfold rs_ratio, mul_scalar, div_by_column.
  rewrite !get_column_map_columns by reflexivity. reflexivity.
Qed.

Lemma rs_column (yf_download : string -> Series) (etf : string) :
  get_column etf (df_columns (rs yf_download))
  = replace_nan (standardize (get_column etf (df_columns (rs_ratio yf_download)))).
Proof.
  unfold rs, rs_standardized.
  rewrite !get_column_map_columns by reflexivity. reflexivity.
Qed.

Lemma replace_nan_standardize_nth_error (l : list fl) (t : nat) (x : fl) :
  nth_error l t = Some x ->
  nth_error (replace_nan (standardize l)) t
  = Some (sanitize (fl_div (fl_sub x (mean l)) (std l))).
Proof.
  intros H. unfold replace_nan, standardize.
  rewrite !nth_error_map, H. reflexivity.
Qed.

(** C2: at a date [t] where the sector and the benchmark both have a price,
    the ratio is [price / benchmark * 100], and the RS output is the ratio
    minus the mean of the sector's ratio over its available history, divided
    by the sample (ddof = 1) standard deviation over that history, an
    undefined result being replaced by 0. *)
Theorem rs_is_standard_score_of_ratio
  (yf_download : string -> Series) (etf : string) (t : nat) (p b : fl) :
  nth_error (get_column etf (df_columns (aprc yf_download))) t = Some p ->
  nth_error (get_column "SP500" (df_columns (aprc yf_download))) t = Some b ->
  isnan p = false ->
  isnan b = false ->
  let ratio := get_column etf (df_columns (rs_ratio yf_download)) in
  nth_error ratio t = Some (fl_mul (fl_div p b) (Fin 100))
  /\ nth_error (get_column etf (df_columns (rs yf_download))) t
     = Some (standard_score_spec ratio (fl_mul (fl_div p b) (Fin 100))).
Proof.
  intros Hp Hb _ _ ratio.
  assert (Hr : nth_error ratio t = Some (fl_mul (fl_div p b) (Fin 100))).
  { unfold ratio. rewrite rs_ratio_column, nth_error_map.
    rewrite (zip_with_nth_error fl_div _ _ t p b Hp Hb). reflexivity. }
  split; [exact Hr|].
  rewrite rs_column. fold ratio.
  rewrite (replace_nan_standardize_nth_error ratio t _ Hr).
  unfold standard_score_spec. now rewrite standardize_cell_spec.
Qed.

Lemma aprc_gap_columns :
  get_column "CSRV" (df_columns (aprc yf_gap)) = [Fin 1; Fin 2]
  /\ get_column "CD" (df_columns (aprc yf_gap)) = [Fin 1; NaN]
  /\ get_column "SP500" (df_columns (aprc yf_gap)) = [Fin 1; Fin 2]
  /\ df_index (aprc yf_gap) = [0%Z; 1%Z].
Proof. repeat split; eval_frame; reflexivity. Qed.

Lemma rs_is_standard_score_of_ratio_witness :
  nth_error (get_column "CSRV" (df_columns (rs yf_gap))) 1
  = Some (standard_score_spec
            (get_column "CSRV" (df_columns (rs_ratio yf_gap)))
            (fl_mul (fl_div (Fin 2) (Fin 2)) (Fin 100))).
Proof.
  destruct aprc_gap_columns as (Hc & _ & Hs & _).
  refine (proj2 (rs_is_standard_score_of_ratio yf_gap "CSRV" 1 (Fin 2) (Fin 2)
                   _ _ eq_refl eq_refl)).
  - rewrite Hc. reflexivity.
  - rewrite Hs. reflexivity.
Defined.

(** ** A constant ratio *)

Lemma fold_add_constant (c : R) (l : list fl) :
  Forall (fun x => x = NaN \/ x = Fin c) l ->
  forall a, fold_left fl_add (fill0 l) (Fin a)
            = Fin (a + INR (count_valid l) * c).
Proof.
  unfold count_valid.
  induction 1 as [|x l [->| ->] _ IH]; intros a.
  - simpl. f_equal. lra.
  - simpl. rewrite IH. f_equal. lra.
  - cbn [fill0 map isnan fold_left fl_add filter negb].
    change (map (fun x => if isnan x then Fin 0 else x) l) with (fill0 l).
    rewrite IH. f_equal. cbn [length]. rewrite S_INR. lra.
Qed.

Lemma fold_add_zeros (l : list fl) :
  Forall (fun x => x = Fin 0) l -> fold_left fl_add l (Fin 0) = Fin 0.
Proof.
  induction 1 as [|x l -> _ IH]; simpl; [reflexivity|].
  replace (0 + 0) with 0 by lra. exact IH.
Qed.

Lemma mean_constant (c : R) (l : list fl) :
  Forall (fun x => x = NaN \/ x = Fin c) l ->
  (0 < count_valid l)%nat -> mean l = Fin c.
Proof.
  intros Hl Hn. unfold mean, fl_sum.
  destruct (Nat.ltb_spec 0 (count_valid l)) as [_|H]; [|lia].
  rewrite (fold_add_constant c l Hl). unfold fl_of_nat.
  assert (Hk : INR (count_valid l) <> 0) by (apply not_0_INR; lia).
  rewrite fl_div_fin by exact Hk. f_equal. field. exact Hk.
Qed.

Lemma std_constant (c : R) (l : list fl) :
  Forall (fun x => x = NaN \/ x = Fin c) l ->
  (2 <= count_valid l)%nat -> std l = Fin 0.
Proof.
  intros Hl Hn. unfold std, var.
  destruct (Nat.leb_spec (count_valid l) 1) as [H|_]; [lia|].
  assert (Havg : fl_div (fl_sum (fill0 l)) (fl_of_nat (count_valid l)) = Fin c).
  { generalize (mean_constant c l Hl ltac:(lia)). unfold mean.
    destruct (Nat.ltb_spec 0 (count_valid l)) as [_|H]; [auto | lia]. }
  rewrite Havg. unfold fl_sum.
  rewrite fold_add_zeros.
  - assert (Hk : INR (count_valid l) - 1 <> 0).
    { assert (1 < INR (count_valid l)); [|lra].
      change 1 with (INR 1). apply lt_INR. lia. }
    rewrite fl_div_fin by exact Hk.
    replace (0 / (INR (count_valid l) - 1)) with 0 by (field; exact Hk).
    rewrite fl_sqrt_fin by lra. now rewrite sqrt_0.
  - apply Forall_map. eapply Forall_impl; [|exact Hl].
    intros x [->| ->]; simpl; [reflexivity|]. f_equal. ring.
Qed.

Lemma standardize_constant (c : R) (l : list fl) :
  Forall (fun x => x = NaN \/ x = Fin c) l ->
  Forall (fun x => x = Fin 0) (replace_nan (standardize l)).
Proof.
  intros Hl. unfold replace_nan, standardize. rewrite map_map.
  apply Forall_map. eapply Forall_impl; [|exact Hl].
  intros x Hx. cbv beta.
  assert (Hnan : fl_div (fl_sub x (mean l)) (std l) = NaN);
    [|now rewrite Hnan].
  destruct (count_valid l) as [|[|n]] eqn:Hn.
  - unfold mean. rewrite Hn. simpl. now rewrite fl_sub_nan_r.
  - rewrite std_single by exact Hn. apply fl_div_nan_r.
  - rewrite (mean_constant c l Hl) by lia.
    rewrite (std_constant c l Hl) by lia.
    destruct Hx as [->| ->]; [reflexivity|].
    cbn [fl_sub fl_neg fl_add]. unfold fl_div.
    destruct (Req_dec_T 0 0) as [_|H]; [|lra].
    destruct (Req_dec_T (c + - c) 0) as [_|H]; [reflexivity | lra].
Qed.

(** ** A constant ratio in binary64

    Special values of binary64 subtraction, division and square root, read
    off the specification of the primitive operations. *)

Lemma Prim2SF_eq (x : float) (s : spec_float) :
  Prim2SF x = s -> x = SF2Prim s.
Proof. intros <-. symmetry. apply SF2Prim_Prim2SF. Qed.

(** [x - x] is [+0] for a number and NaN for an infinity or NaN. *)
Lemma sub_self (x : float) : (x - x)%float = 0%float \/ (x - x)%float = nan.
Proof.
  pose proof (FloatAxioms.sub_spec x x) as H. unfold SF64sub in H.
  destruct (Prim2SF x) as [s|s| |s m e]; cbn [SFsub] in H.
  - left. apply Prim2SF_eq in H. rewrite H. now destruct s.
  - right. apply Prim2SF_eq in H. rewrite H. now destruct s.
  - right. apply Prim2SF_eq in H. exact H.
  - left. rewrite Z.sub_diag in H. apply Prim2SF_eq in H. exact H.
Qed.









(** ** A zero deviation in binary64 *)

(** A non-zero number or an infinity divided by [+0] is an infinity. *)
Lemma over_zero (d : float) :
  is_nan d = false -> (d =? 0)%float = false ->
  (d / 0)%float = infinity \/ (d / 0)%float = neg_infinity.
Proof.
  unfold is_nan. rewrite !FloatAxioms.eqb_spec. intros Hnan Hzero.
  pose proof (FloatAxioms.div_spec d 0) as H. unfold SF64div in H.
  change (Prim2SF 0) with (S754_zero false) in *.
  destruct (Prim2SF d) as [s|s| |s m e]; cbn [SFdiv xorb] in H.
  - destruct s; discriminate.
  - apply Prim2SF_eq in H. rewrite H. destruct s; [now right | now left].
  - discriminate.
  - apply Prim2SF_eq in H. rewrite H. destruct s; [now right | now left].
Qed.

(** X4: [replace(np.nan, 0)] leaves infinities.  In a ratio column whose
    computed standard deviation is exactly 0, a cell whose deviation from the
    computed mean is not zero (the squared deviations underflowed) ends as
    [+inf] or [-inf] in RS, not as 0; a cell whose deviation is zero ends
    as 0. *)
Theorem zero_deviation_leaves_infinities
  (price bench : list float) (t : nat) (x : float) :
  nth_error (Float64.ratio price bench) t = Some x ->
  Float64.std (Float64.ratio price bench) = 0%float ->
  is_nan (x - Float64.mean (Float64.ratio price bench)) = false ->
  ((x - Float64.mean (Float64.ratio price bench) =? 0)%float = false ->
   nth_error (Float64.rs price bench) t = Some infinity
   \/ nth_error (Float64.rs price bench) t = Some neg_infinity)
  /\ (x = Float64.mean (Float64.ratio price bench) ->
      nth_error (Float64.rs price bench) t = Some 0%float).
Proof.
  intros Hx Hstd Hnan.
  unfold Float64.rs, Float64.replace_nan, Float64.standardize.
  rewrite map_map, nth_error_map, Hx, Hstd. cbn [option_map].
  set (m := Float64.mean (Float64.ratio price bench)) in *.
  split.
  - intros Hzero.
    destruct (over_zero (x - m) Hnan Hzero) as [-> | ->]; [now left | now right].
  - intros ->. destruct (sub_self m) as [E|E]; rewrite E in *.
    + reflexivity.
    + discriminate.
Qed.

Lemma zero_deviation_leaves_infinities_witness :
  (nth_error (Float64.ratio [0x1p-600; 0x1p-599] [1; 1]) 0 = Some 0x1.9p-594
   /\ Float64.std (Float64.ratio [0x1p-600; 0x1p-599] [1; 1]) = 0
   /\ is_nan (0x1.9p-594
              - Float64.mean (Float64.ratio [0x1p-600; 0x1p-599] [1; 1]))
      = false
   /\ (0x1.9p-594 - Float64.mean (Float64.ratio [0x1p-600; 0x1p-599] [1; 1])
       =? 0) = false)%float
  /\ nth_error (Float64.rs [0x1p-600; 0x1p-599] [1; 1])%float 0
     = Some neg_infinity.
Proof.
  assert (Hx : (nth_error (Float64.ratio [0x1p-600; 0x1p-599] [1; 1]) 0
                = Some 0x1.9p-594)%float) by reflexivity.
  assert (Hstd : (Float64.std (Float64.ratio [0x1p-600; 0x1p-599] [1; 1])
                  = 0)%float) by reflexivity.
  assert (Hnan : (is_nan (0x1.9p-594
                  - Float64.mean (Float64.ratio [0x1p-600; 0x1p-599] [1; 1]))
                  = false)%float) by reflexivity.
  assert (Hzero : ((0x1.9p-594
                    - Float64.mean (Float64.ratio [0x1p-600; 0x1p-599] [1; 1])
                    =? 0) = false)%float) by reflexivity.
  split; [now repeat split|].
  destruct (proj1 (zero_deviation_leaves_infinities
                     [0x1p-600; 0x1p-599]%float [1; 1]%float 0 _
                     Hx Hstd Hnan) Hzero) as [E|E].
  - discriminate E.
  - exact E.
Defined.

(** ** Which dates reach the momentum table *)

Lemma zip_with_map (f : fl -> fl -> fl) (g h : Z -> fl) (l : list Z) :
  zip_with f (map g l) (map h l) = map (fun d => f (g d) (h d)) l.
Proof. induction l as [|d l IH]; simpl; [reflexivity | now rewrite IH]. Qed.

Lemma select_seq_filter {A : Type} (g : nat -> bool) (h : A -> bool)
  (dflt : A) (l : list A) :
  forall a,
    (forall i, (i < length l)%nat -> g (a + i)%nat = h (nth i l dflt)) ->
    select (map g (seq a (length l))) l = filter h l.
Proof.
  induction l as [|x l IH]; intros a H; simpl; [reflexivity|].
  assert (H0 : g a = h x).
  { rewrite <- (Nat.add_0_r a). apply (H 0%nat). simpl; lia. }
  rewrite H0, (IH (S a)); [reflexivity|].
  intros i Hi. replace (S a + i)%nat with (a + S i)%nat by lia.
  apply (H (S i)). simpl; lia.
Qed.

Lemma ratio_frame_columns (yf_download : string -> Series) :
  df_columns (mul_scalar (Fin 100)
                (div_by_series (aprc yf_download) (sp500 yf_download)))
  = map (fun c => (fst c,
                   map (ratio_at yf_download (snd c))
                       (index_union (df_index (aprc yf_download))
                                    (s_index (sp500 yf_download)))))
        (df_columns (aprc yf_download)).
Proof.
  unfold mul_scalar, div_by_series, map_columns. cbn [df_columns df_index].
  rewrite map_map. apply map_ext. intros [n c]. cbn [fst snd].
  unfold s_reindex, reindex, ratio_at. rewrite zip_with_map, map_map.
  reflexivity.
Qed.

Lemma forallb_map_pointwise {A B : Type} (f : B -> bool) (g : A -> B)
  (h : A -> bool) (l : list A) :
  (forall x, f (g x) = h x) -> forallb f (map g l) = forallb h l.
Proof.
  intros H. induction l as [|x l IH]; simpl; [reflexivity|].
  now rewrite H, IH.
Qed.

Lemma row_notna_ratio_frame (yf_download : string -> Series) (t : nat) :
  let U := index_union (df_index (aprc yf_download))
                       (s_index (sp500 yf_download)) in
  (t < length U)%nat ->
  row_notna (df_columns (mul_scalar (Fin 100)
               (div_by_series (aprc yf_download) (sp500 yf_download)))) t
  = row_complete yf_download (nth t U 0%Z).
Proof.
  intros U Ht. rewrite ratio_frame_columns. fold U.
  unfold row_notna, row_complete.
  apply forallb_map_pointwise. intros [n c]. cbn [fst snd].
  rewrite (nth_indep _ NaN (ratio_at yf_download c 0%Z))
    by (now rewrite length_map).
  now rewrite map_nth.
Qed.

Lemma mom_raw_index (yf_download : string -> Series) :
  df_index (mom_raw yf_download)
  = filter (row_complete yf_download)
           (index_union (df_index (aprc yf_download))
                        (s_index (sp500 yf_download))).
Proof.
  unfold mom_raw, dropna. cbn [df_index].
  change (df_index (mul_scalar (Fin 100)
            (div_by_series (aprc yf_download) (sp500 yf_download))))
    with (index_union (df_index (aprc yf_download))
                      (s_index (sp500 yf_download))).
  apply (select_seq_filter _ _ 0%Z). intros i Hi. cbn [Nat.add].
  now apply row_notna_ratio_frame.
Qed.

Lemma insert_date_In (d x : Z) (l : list Z) :
  In x (insert_date d l) <-> x = d \/ In x l.
Proof.
  induction l as [|y l IH]; simpl.
  - intuition.
  - destruct (Z.ltb_spec d y).
    + simpl. intuition.
    + destruct (Z.eqb_spec d y) as [->|Hne].
      * simpl. intuition.
      * simpl. rewrite IH. intuition.
Qed.

Lemma index_union_In (a b : list Z) (x : Z) :
  In x (index_union a b) <-> In x a \/ In x b.
Proof.
  unfold index_union. rewrite <- in_app_iff.
  induction (a ++ b) as [|d l IH]; simpl; [tauto|].
  rewrite insert_date_In, IH. intuition.
Qed.

Lemma lookup_at_absent (idx : list Z) (vals : list fl) (d : Z) :
  ~ In d idx -> lookup_at idx vals d = NaN.
Proof.
  revert vals; induction idx as [|i idx IH]; intros vals H; simpl.
  - reflexivity.
  - destruct vals as [|v vals]; [reflexivity|].
    destruct (Z.eqb_spec i d) as [->|Hne].
    + exfalso; apply H; now left.
    + apply IH. intros Hin; apply H; now right.
Qed.

Lemma ratio_defined_price_defined (p b : fl) :
  negb (isnan (fl_mul (fl_div p b) (Fin 100))) = true -> isnan p = false.
Proof. destruct p; simpl; [discriminate | reflexivity..]. Qed.

Lemma row_complete_cell (yf_download : string -> Series) (d : Z)
  (etf : string) (col : list fl) :
  In (etf, col) (df_columns (aprc yf_download)) ->
  row_complete yf_download d = true ->
  isnan (lookup_at (df_index (aprc yf_download)) col d) = false.
Proof.
  intros Hin Hrow.
  pose proof (proj1 (forallb_forall _ _) Hrow (etf, col) Hin) as Hc.
  exact (ratio_defined_price_defined _ _ Hc).
Qed.

Lemma row_complete_in_table (yf_download : string -> Series) (d : Z) :
  row_complete yf_download d = true -> In d (df_index (aprc yf_download)).
Proof.
  intros Hrow.
  destruct (in_dec Z.eq_dec d (df_index (aprc yf_download))) as [H|H];
    [exact H | exfalso].
  assert (Hin : In ("SP500"%string,
                    s_reindex (sp500 yf_download)
                              (df_index (aprc_sectors yf_download)))
                   (df_columns (aprc yf_download))).
  { unfold aprc, join. cbn [df_columns]. apply in_or_app. right. now left. }
  pose proof (row_complete_cell _ _ _ _ Hin Hrow) as Hc.
  rewrite lookup_at_absent in Hc by exact H. discriminate.
Qed.

Lemma mom_raw_index_In (yf_download : string -> Series) (d : Z) :
  In d (df_index (mom_raw yf_download))
  <-> In d (df_index (aprc yf_download)) /\ row_complete yf_download d = true.
Proof.
  rewrite mom_raw_index, filter_In, index_union_In. split.
  - intros [_ Hrow]. split; [now apply row_complete_in_table | exact Hrow].
  - intros [Hin Hrow]. split; [now left | exact Hrow].
Qed.

Lemma rs_index (yf_download : string -> Series) :
  df_index (rs yf_download) = df_index (aprc yf_download).
Proof. reflexivity. Qed.

Lemma rs_mom_index (yf_download : string -> Series) :
  df_index (rs_mom yf_download) = df_index (mom_raw yf_download).
Proof. reflexivity. Qed.

(** ** Shape of the price table *)

Lemma set_column_Forall (P : string * list fl -> Prop) (name : string)
  (col : list fl) (cols : list (string * list fl)) :
  (forall n, P (n, col)) -> Forall P cols -> Forall P (set_column name col cols).
Proof.
  intros Hcol H. induction H as [|[n c] rest Hc Hrest IH]; simpl.
  - constructor; [apply Hcol | constructor].
  - destruct (String.eqb n name); constructor;
      [apply Hcol | assumption | assumption | exact IH].
Qed.

Lemma set_column_names (name : string) (col : list fl)
  (cols : list (string * list fl)) :
  map fst (set_column name col cols) = add_name name (map fst cols).
Proof.
  induction cols as [|[n c] rest IH]; simpl; [reflexivity|].
  destruct (String.eqb n name); simpl; [reflexivity | now rewrite IH].
Qed.

Lemma s_reindex_length (s : Series) (idx : list Z) :
  length (s_reindex s idx) = length idx.
Proof. unfold s_reindex, reindex. apply length_map. Qed.

Lemma setitem_wf (df : DataFrame) (name : string) (s : Series) :
  wf_frame df -> wf_frame (setitem df name s).
Proof.
  destruct df as [idx cols]. unfold wf_frame, setitem. cbn [df_index df_columns].
  intros H. destruct idx as [|i idx]; [destruct s as [|p s]|].
  - apply set_column_Forall; [intros n; apply s_reindex_length | exact H].
  - cbn [df_index df_columns]. apply set_column_Forall.
    + intros n. apply s_reindex_length.
    + apply Forall_map. apply Forall_forall. intros c _. cbn [snd].
      unfold s_index. now rewrite repeat_length, length_map.
  - apply set_column_Forall; [intros n; apply s_reindex_length | exact H].
Qed.

Lemma setitem_names (df : DataFrame) (name : string) (s : Series) :
  col_names (setitem df name s) = add_name name (col_names df).
Proof.
  destruct df as [idx cols]. unfold col_names, setitem. cbn [df_columns].
  destruct idx as [|i idx]; [destruct s as [|p s]|]; cbn [df_columns];
    rewrite set_column_names; [reflexivity | | reflexivity].
  rewrite map_map. reflexivity.
Qed.

Lemma fold_setitem_wf (yf_download : string -> Series)
  (l : list (string * string)) :
  forall df, wf_frame df ->
    wf_frame (fold_left (fun df kv => setitem df (snd kv)
                                        (fetch_hist_data yf_download (fst kv)))
                        l df).
Proof.
  induction l as [|kv l IH]; intros df H; simpl; [exact H|].
  apply IH. now apply setitem_wf.
Qed.

Lemma fold_setitem_names (yf_download : string -> Series)
  (l : list (string * string)) :
  forall df,
    col_names (fold_left (fun df kv => setitem df (snd kv)
                                         (fetch_hist_data yf_download (fst kv)))
                         l df)
    = fold_left (fun names kv => add_name (snd kv) names) l (col_names df).
Proof.
  induction l as [|kv l IH]; intros df; simpl; [reflexivity|].
  now rewrite IH, setitem_names.
Qed.

Lemma aprc_names (yf_download : string -> Series) :
  col_names (aprc yf_download)
  = map snd tickers_names ++ ["SP500"%string].
Proof.
  unfold aprc, join, col_names. cbn [df_columns]. rewrite map_app.
  change (map fst (df_columns (aprc_sectors yf_download)))
    with (col_names (aprc_sectors yf_download)).
  unfold aprc_sectors. rewrite fold_setitem_names. reflexivity.
Qed.

Lemma aprc_wf (yf_download : string -> Series) : wf_frame (aprc yf_download).
Proof.
  assert (H : wf_frame (aprc_sectors yf_download)).
  { unfold aprc_sectors. apply fold_setitem_wf. constructor. }
  unfold wf_frame, aprc, join in *. cbn [df_index df_columns].
  apply Forall_app. split; [exact H|].
  constructor; [apply s_reindex_length | constructor].
Qed.

Lemma get_column_In_names (name : string) (cols : list (string * list fl)) :
  In name (map fst cols) -> In (name, get_column name cols) cols.
Proof.
  induction cols as [|[n c] rest IH]; simpl; [tauto|].
  destruct (String.eqb_spec n name) as [->|Hne].
  - intros _. now left.
  - intros [H|H]; [contradiction | right; auto].
Qed.

Lemma get_column_wf (df : DataFrame) (name : string) :
  wf_frame df -> In name (col_names df) ->
  length (get_column name (df_columns df)) = length (df_index df).
Proof.
  intros Hwf Hin. unfold wf_frame in Hwf. rewrite Forall_forall in Hwf.
  exact (Hwf _ (get_column_In_names _ _ Hin)).
Qed.

Lemma map_columns_wf (f : list fl -> list fl) (df : DataFrame) :
  (forall l, length (f l) = length l) ->
  wf_frame df -> wf_frame (map_columns f df).
Proof.
  intros Hf H. unfold wf_frame, map_columns in *. cbn [df_index df_columns].
  apply Forall_map. eapply Forall_impl; [|exact H].
  intros c Hc. cbn [snd]. now rewrite Hf.
Qed.

Lemma standardize_length (l : list fl) : length (standardize l) = length l.
Proof. unfold standardize. apply length_map. Qed.

Lemma replace_nan_length (l : list fl) : length (replace_nan l) = length l.
Proof. unfold replace_nan. apply length_map. Qed.

Lemma rs_ratio_wf (yf_download : string -> Series) :
  wf_frame (rs_ratio yf_download).
Proof.
  pose proof (aprc_wf yf_download) as Hwf.
  assert (Hsp : length (get_column "SP500" (df_columns (aprc yf_download)))
                = length (df_index (aprc yf_download))).
  { apply get_column_wf; [exact Hwf|]. rewrite aprc_names.
    apply in_or_app. right. now left. }
  unfold rs_ratio, mul_scalar, div_by_column, wf_frame, map_columns in *.
  cbn [df_index df_columns]. rewrite map_map. apply Forall_map.
  eapply Forall_impl; [|exact Hwf].
  intros c Hc. cbn beta in Hc. cbn [fst snd].
  rewrite length_map, zip_with_length, Hc, Hsp. apply Nat.min_id.
Qed.

Lemma rs_wf (yf_download : string -> Series) : wf_frame (rs yf_download).
Proof.
  unfold rs, rs_standardized.
  apply map_columns_wf; [apply replace_nan_length|].
  apply map_columns_wf; [apply standardize_length|].
  apply rs_ratio_wf.
Qed.

(** ** The date index of the two outputs *)

Lemma gap_indexes :
  df_index (rs yf_gap) = [0%Z; 1%Z] /\ df_index (rs_mom yf_gap) = [0%Z].
Proof.
  split.
  - eval_frame. reflexivity.
  - rewrite rs_mom_index. unfold mom_raw. eval_frame. reflexivity.
Qed.

(** C4, as the code has it: the MOM table is indexed by the row-complete
    dates only, a part of the RS index (the union with the benchmark's own
    dates adds none, a date outside the price table having no ratio); a date
    is in the MOM index exactly when it is in the RS index and no column has
    an undefined ratio on it. *)
Theorem rs_mom_index_is_row_complete_part (yf_download : string -> Series) :
  df_index (rs_mom yf_download)
  = filter (row_complete yf_download)
           (index_union (df_index (rs yf_download))
                        (s_index (sp500 yf_download)))
  /\ (forall d, In d (df_index (rs_mom yf_download))
                <-> In d (df_index (rs yf_download))
                    /\ row_complete yf_download d = true).
Proof.
  split.
  - rewrite rs_mom_index, rs_index. apply mom_raw_index.
  - intros d. rewrite rs_mom_index, rs_index. apply mom_raw_index_In.
Qed.

(** C4 fails as stated: with a quote missing on the second day, the RS index
    keeps both days and the MOM index only the first. *)
Lemma rs_and_mom_index_differ :
  ~ (forall d, In d (df_index (rs yf_gap)) <-> In d (df_index (rs_mom yf_gap))).
Proof.
  destruct gap_indexes as [Hrs Hmom]. rewrite Hrs, Hmom. intros H.
  destruct (proj1 (H 1%Z)) as [E|[]]; [right; now left | discriminate E].
Qed.

(** ** The trail handed to the plot *)

Lemma iloc_from_neg {A : Type} (n : nat) (l : list A) :
  (0 < n)%nat -> iloc_from (- Z.of_nat n) l = tail_n n l.
Proof.
  intros Hn. unfold iloc_from, tail_n.
  destruct (Z.ltb_spec (- Z.of_nat n) 0) as [_|H]; [|lia].
  f_equal. lia.
Qed.

Lemma iloc_from_0 {A : Type} (l : list A) : iloc_from 0 l = l.
Proof.
  unfold iloc_from. simpl.
  replace (Z.min 0 (Z.of_nat (length l))) with 0%Z by lia. reflexivity.
Qed.

Lemma tail_n_length {A : Type} (n : nat) (l : list A) :
  length (tail_n n l) = Nat.min n (length l).
Proof. unfold tail_n. rewrite length_skipn. lia. Qed.

Lemma skipn_combine {A B : Type} (k : nat) (a : list A) (b : list B) :
  skipn k (combine a b) = combine (skipn k a) (skipn k b).
Proof.
  revert a b; induction k as [|k IH]; intros a b; [reflexivity|].
  destruct a as [|x a]; [reflexivity|].
  destruct b as [|y b]; simpl.
  - now destruct (skipn k a).
  - apply IH.
Qed.

Lemma tail_n_combine {A B : Type} (n : nat) (a : list A) (b : list B) :
  length a = length b ->
  tail_n n (combine a b) = combine (tail_n n a) (tail_n n b).
Proof.
  intros H. unfold tail_n. rewrite length_combine, <- H, Nat.min_id.
  apply skipn_combine.
Qed.

Lemma rs_mom_column (yf_download : string -> Series) (etf : string) :
  get_column etf (df_columns (rs_mom yf_download))
  = replace_nan (standardize (get_column etf (df_columns (mom yf_download)))).
Proof.
  unfold rs_mom, rs_mom_standardized.
  rewrite !get_column_map_columns by reflexivity. reflexivity.
Qed.

Lemma rs_column_length (yf_download : string -> Series) (etf : string) :
  In etf (col_names (aprc yf_download)) ->
  length (get_column etf (df_columns (rs yf_download)))
  = length (df_index (rs yf_download)).
Proof.
  intros Hin. apply get_column_wf; [apply rs_wf|].
  unfold rs, rs_standardized, rs_ratio, mul_scalar, div_by_column,
    map_columns, col_names in *.
  cbn [df_columns]. now rewrite !map_map.
Qed.

Lemma select_length_eq {A B : Type} (keep : list bool) (a : list A) (b : list B) :
  length a = length b -> length (select keep a) = length (select keep b).
Proof.
  revert a b; induction keep as [|k keep IH]; intros [|x a] [|y b] H;
    try discriminate; try reflexivity.
  injection H as H. destruct k; simpl; auto.
Qed.

Lemma get_column_map_present (f : list fl -> list fl) (name : string)
  (cols : list (string * list fl)) :
  In name (map fst cols) ->
  get_column name (map (fun c => (fst c, f (snd c))) cols)
  = f (get_column name cols).
Proof.
  induction cols as [|[n c] rest IH]; simpl; [tauto|].
  destruct (String.eqb_spec n name) as [->|Hne]; [reflexivity|].
  intros [H|H]; [contradiction | auto].
Qed.

Lemma mom_raw_column_length (yf_download : string -> Series) (etf : string) :
  In etf (col_names (aprc yf_download)) ->
  length (get_column etf (df_columns (mom_raw yf_download)))
  = length (df_index (mom_raw yf_download)).
Proof.
  intros Hin. unfold mom_raw, dropna. cbn [df_columns df_index].
  rewrite (get_column_map (select _)) by apply select_nil.
  apply select_length_eq.
  rewrite ratio_frame_columns.
  rewrite (get_column_map_present
             (fun c => map (ratio_at yf_download c)
                           (index_union (df_index (aprc yf_download))
                                        (s_index (sp500 yf_download)))))
    by exact Hin.
  apply length_map.
Qed.

Lemma rs_mom_column_length (yf_download : string -> Series) (etf : string) :
  In etf (col_names (aprc yf_download)) ->
  length (get_column etf (df_columns (rs_mom yf_download)))
  = length (df_index (rs_mom yf_download)).
Proof.
  intros Hin.
  rewrite rs_mom_column, replace_nan_length, standardize_length.
  rewrite mom_column_length, rs_mom_index.
  now apply mom_raw_column_length.
Qed.

Lemma sector_is_column (yf_download : string -> Series) (etf : string) :
  In etf (map snd tickers_names) -> In etf (col_names (aprc yf_download)).
Proof. intros H. rewrite aprc_names. apply in_or_app. now left. Qed.

(** C8, as the code has it: the slider value selects the last 1, 3, 7, 14,
    21 or 50 cells of the sector's RS column and, separately, of its MOM
    column (all of a column that has fewer), in index order, and [MAX**] both
    whole columns; when the RS and MOM tables have the same index, the two
    tails are the last rows of the sector's (date, RS, MOM) series. *)
Theorem trail_is_tail_of_each_column
  (yf_download : string -> Series) (etf : string) :
  let x := get_column etf (df_columns (rs yf_download)) in
  let y := get_column etf (df_columns (rs_mom yf_download)) in
  trail yf_download "LTD*" etf = Some (tail_n 1 x, tail_n 1 y)
  /\ trail yf_download "3D" etf = Some (tail_n 3 x, tail_n 3 y)
  /\ trail yf_download "7D" etf = Some (tail_n 7 x, tail_n 7 y)
  /\ trail yf_download "14D" etf = Some (tail_n 14 x, tail_n 14 y)
  /\ trail yf_download "21D" etf = Some (tail_n 21 x, tail_n 21 y)
  /\ trail yf_download "50D" etf = Some (tail_n 50 x, tail_n 50 y)
  /\ trail yf_download "MAX**" etf = Some (x, y)
  /\ (In etf (map snd tickers_names) ->
      df_index (rs yf_download) = df_index (rs_mom yf_download) ->
      forall n,
        combine (tail_n n (df_index (rs yf_download)))
                (combine (tail_n n x) (tail_n n y))
        = tail_n n (rrg_series yf_download etf)).
Proof.
  intros x y. unfold trail. cbn [lookback_period String.eqb Ascii.eqb Bool.eqb].
  change (-1)%Z with (- Z.of_nat 1)%Z. change (-3)%Z with (- Z.of_nat 3)%Z.
  change (-7)%Z with (- Z.of_nat 7)%Z. change (-14)%Z with (- Z.of_nat 14)%Z.
  change (-21)%Z with (- Z.of_nat 21)%Z. change (-50)%Z with (- Z.of_nat 50)%Z.
  rewrite !iloc_from_neg by lia. rewrite !iloc_from_0.
  repeat (split; [reflexivity|]).
  intros Hin Hidx n. unfold rrg_series. fold x y.
  assert (Hx : length x = length (df_index (rs yf_download))).
  { apply rs_column_length. now apply sector_is_column. }
  assert (Hy : length y = length (df_index (rs yf_download))).
  { rewrite Hidx. apply rs_mom_column_length. now apply sector_is_column. }
  rewrite (tail_n_combine n (df_index (rs yf_download)) (combine x y))
    by (rewrite length_combine, Hx, Hy; now rewrite Nat.min_id).
  rewrite (tail_n_combine n x y) by (now rewrite Hx, Hy).
  reflexivity.
Qed.

Lemma bump_indexes_agree : df_index (rs yf_bump) = df_index (rs_mom yf_bump).
Proof.
  rewrite rs_mom_index. unfold mom_raw.
  transitivity (map Z.of_nat (seq 0 64)).
  - eval_frame. reflexivity.
  - eval_frame. reflexivity.
Qed.

Lemma trail_is_tail_of_each_column_witness :
  In "CSRV"%string (map snd tickers_names)
  /\ df_index (rs yf_bump) = df_index (rs_mom yf_bump)
  /\ combine (tail_n 7 (df_index (rs yf_bump)))
             (combine (tail_n 7 (get_column "CSRV" (df_columns (rs yf_bump))))
                      (tail_n 7 (get_column "CSRV" (df_columns (rs_mom yf_bump)))))
     = tail_n 7 (rrg_series yf_bump "CSRV").
Proof.
  assert (Hin : In "CSRV"%string (map snd tickers_names)) by (now left).
  repeat split; [exact Hin | exact bump_indexes_agree |].
  destruct (trail_is_tail_of_each_column yf_bump "CSRV")
    as (_ & _ & _ & _ & _ & _ & _ & H).
  exact (H Hin bump_indexes_agree 7%nat).
Defined.

(** C8 fails as stated: with a quote missing on the last day, the "7D" trail
    of a sector holds two RS values and one MOM value, which are not the
    columns of any list of (date, RS, MOM) triples. *)
Lemma trail_gap_is_not_a_list_of_triples :
  ~ exists rows : list (Z * (fl * fl)),
      trail yf_gap "7D" "CSRV"
      = Some (map (fun r => fst (snd r)) rows, map (fun r => snd (snd r)) rows).
Proof.
  assert (Hin : In "CSRV"%string (col_names (aprc yf_gap)))
    by (apply sector_is_column; now left).
  pose proof (rs_column_length yf_gap "CSRV" Hin) as Lx.
  pose proof (rs_mom_column_length yf_gap "CSRV" Hin) as Ly.
  destruct gap_indexes as [Hrs Hmom]. rewrite Hrs in Lx. rewrite Hmom in Ly.
  intros [rows H]. unfold trail in H.
  cbn [lookback_period String.eqb Ascii.eqb Bool.eqb] in H.
  change (-7)%Z with (- Z.of_nat 7)%Z in H.
  rewrite !iloc_from_neg in H by lia.
  revert H Lx Ly.
  generalize (get_column "CSRV" (df_columns (rs yf_gap))).
  generalize (get_column "CSRV" (df_columns (rs_mom yf_gap))).
  intros y x H Lx Ly.
  injection H as Hx Hy.
  apply (f_equal (@length fl)) in Hx, Hy.
  rewrite length_map, tail_n_length in Hx, Hy.
  rewrite Lx in Hx. rewrite Ly in Hy. simpl in Hx, Hy. lia.
Qed.

(** ** Quadrant labels *)


(** ** Where undefined values are replaced *)

Lemma replace_nan_nth_error_nan (l : list fl) (t : nat) :
  nth_error l t = Some NaN -> nth_error (replace_nan l) t = Some (Fin 0).
Proof. intros H. unfold replace_nan. now rewrite nth_error_map, H. Qed.

Lemma mom_column (yf_download : string -> Series) (etf : string) :
  get_column etf (df_columns (mom yf_download))
  = replace_nan (get_column etf (df_columns (mom_log yf_download))).
Proof. unfold mom. now rewrite get_column_map_columns by reflexivity. Qed.

Lemma mom_log_early (yf_download : string -> Series) (etf : string) (t : nat) :
  (t < 63)%nat ->
  (t < length (get_column etf (df_columns (mom_raw yf_download))))%nat ->
  nth_error (get_column etf (df_columns (mom_log yf_download))) t = Some NaN.
Proof.
  intros H63 Ht. rewrite mom_log_nth_error by exact Ht. unfold pct_spec.
  destruct (Nat.ltb_spec t 63) as [_|H]; [reflexivity | lia].
Qed.

(** C1, as the code has it: a NaN is replaced by 0 at the three places where
    the script calls [replace(np.nan, 0)].  An undefined ratio or an
    undefined standardized value gives RS exactly 0; an undefined raw
    momentum (the first 63 dates, among others) becomes 0 before the
    momentum is standardized, so the final MOM there is the standard score
    of 0, [(0 - mean) / std] of the sector's raw momentum; an undefined
    standardized momentum gives MOM exactly 0.  Every step is a total
    function: nothing raises. *)
Theorem nan_replaced_after_each_stage
  (yf_download : string -> Series) (etf : string) (t : nat) :
  let m := get_column etf (df_columns (mom yf_download)) in
  (nth_error (get_column etf (df_columns (rs_ratio yf_download))) t = Some NaN ->
   nth_error (get_column etf (df_columns (rs yf_download))) t = Some (Fin 0))
  /\ (nth_error (get_column etf (df_columns (rs_standardized yf_download))) t
      = Some NaN ->
      nth_error (get_column etf (df_columns (rs yf_download))) t = Some (Fin 0))
  /\ ((t < 63)%nat ->
      (t < length (get_column etf (df_columns (mom_raw yf_download))))%nat ->
      nth_error (get_column etf (df_columns (mom_log yf_download))) t = Some NaN)
  /\ (nth_error (get_column etf (df_columns (mom_log yf_download))) t = Some NaN ->
      nth_error m t = Some (Fin 0)
      /\ nth_error (get_column etf (df_columns (rs_mom yf_download))) t
         = Some (sanitize (fl_div (fl_sub (Fin 0) (mean m)) (std m))))
  /\ (nth_error (get_column etf (df_columns (rs_mom_standardized yf_download))) t
      = Some NaN ->
      nth_error (get_column etf (df_columns (rs_mom yf_download))) t
      = Some (Fin 0)).
Proof.
  intros m. repeat split.
  - intros H. rewrite rs_column.
    rewrite (replace_nan_standardize_nth_error _ _ _ H). reflexivity.
  - intros H. unfold rs. rewrite get_column_map_columns by reflexivity.
    now apply replace_nan_nth_error_nan.
  - apply mom_log_early.
  - unfold m. rewrite mom_column. now apply replace_nan_nth_error_nan.
  - assert (Hm : nth_error m t = Some (Fin 0)).
    { unfold m. rewrite mom_column. now apply replace_nan_nth_error_nan. }
    rewrite rs_mom_column. fold m.
    now rewrite (replace_nan_standardize_nth_error _ _ _ Hm).
  - intros H. unfold rs_mom. rewrite get_column_map_columns by reflexivity.
    now apply replace_nan_nth_error_nan.
Qed.

(** The 64-day table: flat momentum, then one defined value. *)

Lemma mom_raw_spec_bump_last : mom_raw_spec ratio_bump 63 = Fin (ln 2).
Proof.
  unfold mom_raw_spec, pct_spec.
  lazy -[fl_div fl_mul fl_log fl_sqrt fl_add fl_sub sanitize
         IZR INR Rdiv Rmult Rplus Rminus Ropp Rinv ln sqrt].
  rewrite !fl_div_fin by lra. cbn [fl_sub fl_add fl_neg].
  rewrite !fl_log_fin by lra. cbn [fl_sub fl_add fl_neg sanitize isnan].
  f_equal.
  match goal with |- ln ?a + - ln ?b = _ =>
    replace a with 1 by lra; replace b with (/ 2) by lra
  end.
  rewrite ln_1, ln_Rinv by lra. lra.
Qed.

Lemma mom_bump_column :
  get_column "CSRV" (df_columns (mom yf_bump)) = mom_bump.
Proof.
  assert (Hlen : length (get_column "CSRV" (df_columns (mom yf_bump))) = 64%nat).
  { rewrite mom_column_length, mom_raw_bump_column. reflexivity. }
  apply nth_error_ext. intros n.
  destruct (Nat.lt_ge_cases n 64) as [Hn|Hn].
  - rewrite mom_nth_error by (rewrite mom_raw_bump_column; exact Hn).
    rewrite mom_raw_bump_column. unfold mom_bump.
    destruct (Nat.lt_ge_cases n 63) as [Hearly|Hlast].
    + rewrite mom_raw_spec_early by exact Hearly.
      rewrite nth_error_app1 by (rewrite repeat_length; exact Hearly).
      symmetry. now apply nth_error_repeat.
    + assert (n = 63%nat) as -> by lia.
      rewrite mom_raw_spec_bump_last.
      rewrite nth_error_app2 by (rewrite repeat_length; lia).
      rewrite repeat_length. reflexivity.
  - rewrite (proj2 (nth_error_None _ _)) by lia.
    symmetry. apply nth_error_None. unfold mom_bump.
    rewrite length_app, repeat_length. simpl. lia.
Qed.

Lemma INR_64 : INR 64 = 64.
Proof. rewrite INR_IZR_INZ. reflexivity. Qed.

Lemma mean_mom_bump : mean mom_bump = Fin (ln 2 / 64).
Proof.
  unfold mean, mom_bump.
  lazy -[fl_div fl_log fl_sqrt IZR INR Rdiv Rmult Rplus Rminus Ropp Rinv ln sqrt].
  rewrite INR_64, fl_div_fin by lra. f_equal. lra.
Qed.

Lemma ln_2_pos : 0 < ln 2.
Proof. rewrite <- ln_1. apply ln_increasing; lra. Qed.

Lemma std_mom_bump : exists s, 0 < s /\ std mom_bump = Fin s.
Proof.
  pose proof ln_2_pos as HL. unfold std, var, mom_bump.
  lazy -[fl_div fl_log fl_sqrt IZR INR Rdiv Rmult Rplus Rminus Ropp Rinv ln sqrt].
  rewrite INR_64, (fl_div_fin _ 64) by lra.
  rewrite fl_div_fin by lra.
  match goal with |- context [fl_sqrt (Fin ?v)] => set (V := v) end.
  assert (HV : 0 < V).
  { subst V.
    match goal with |- 0 < ?q / _ => assert (0 < q) by nra end.
    apply Rdiv_lt_0_compat; lra. }
  rewrite fl_sqrt_fin by lra.
  exists (sqrt V). split; [now apply sqrt_lt_R0 | reflexivity].
Qed.

Lemma rs_mom_bump_first :
  exists v, v < 0
    /\ nth_error (get_column "CSRV" (df_columns (rs_mom yf_bump))) 0
       = Some (Fin v).
Proof.
  destruct std_mom_bump as (s & Hs & Hstd). pose proof ln_2_pos as HL.
  exists ((0 + - (ln 2 / 64)) / s). split.
  - apply Rmult_neg_pos; [lra | now apply Rinv_0_lt_compat].
  - rewrite rs_mom_column, mom_bump_column.
    rewrite (replace_nan_standardize_nth_error mom_bump 0 (Fin 0))
      by reflexivity.
    rewrite mean_mom_bump, Hstd. cbn [fl_sub fl_neg fl_add].
    rewrite fl_div_fin by lra. reflexivity.
Qed.

Lemma mom_log_bump_first :
  nth_error (get_column "CSRV" (df_columns (mom_log yf_bump))) 0 = Some NaN.
Proof.
  apply mom_log_early; [lia|]. rewrite mom_raw_bump_column. simpl. lia.
Qed.

(** C1 fails as stated: on the first day of the 64-day table the raw
    momentum is undefined (no value 63 days back), yet the final MOM of that
    day is a negative number, not 0. *)
Lemma undefined_momentum_gives_nonzero_final_mom :
  nth_error (get_column "CSRV" (df_columns (mom_log yf_bump))) 0 = Some NaN
  /\ nth_error (get_column "CSRV" (df_columns (rs_mom yf_bump))) 0
     <> Some (Fin 0).
Proof.
  split; [exact mom_log_bump_first|].
  destruct rs_mom_bump_first as (v & Hv & Hcell). rewrite Hcell.
  intros [= E]. lra.
Qed.

Lemma nan_replaced_after_each_stage_witness :
  nth_error (get_column "CSRV" (df_columns (mom_log yf_bump))) 0 = Some NaN
  /\ nth_error (get_column "CSRV" (df_columns (mom yf_bump))) 0 = Some (Fin 0)
  /\ nth_error (get_column "CSRV" (df_columns (rs_mom yf_bump))) 0
     = Some (sanitize
               (fl_div (fl_sub (Fin 0)
                          (mean (get_column "CSRV" (df_columns (mom yf_bump)))))
                       (std (get_column "CSRV" (df_columns (mom yf_bump)))))).
Proof.
  split; [exact mom_log_bump_first|].
  destruct (nan_replaced_after_each_stage yf_bump "CSRV" 0)
    as (_ & _ & _ & H & _).
  exact (H mom_log_bump_first).
Defined.

Lemma aprc_gap_has_cd_column :
  In ("CD"%string, [Fin 1; NaN]) (df_columns (aprc yf_gap)).
Proof. eval_frame. right. left. reflexivity. Qed.

(** ** The price table, column by column *)

Lemma setitem_index (df : DataFrame) (name : string) (s : Series) :
  df_index (setitem df name s)
  = match df_index df, s with
    | [], _ :: _ => s_index s
    | idx, _ => idx
    end.
Proof.
  destruct df as [idx cols]. unfold setitem. cbn [df_index].
  destruct idx as [|i idx]; [destruct s as [|p s]|]; reflexivity.
Qed.

Lemma fold_setitem_index_kept (yf_download : string -> Series)
  (l : list (string * string)) :
  forall df, df_index df <> [] ->
    df_index (fold_left (fun df kv => setitem df (snd kv)
                                        (fetch_hist_data yf_download (fst kv)))
                        l df)
    = df_index df.
Proof.
  induction l as [|kv l IH]; intros df H; simpl; [reflexivity|].
  assert (E : df_index (setitem df (snd kv)
                          (fetch_hist_data yf_download (fst kv)))
              = df_index df).
  { rewrite setitem_index. destruct (df_index df); [contradiction | reflexivity]. }
  rewrite IH; [exact E | now rewrite E].
Qed.

Lemma fold_setitem_index (yf_download : string -> Series)
  (l : list (string * string)) :
  forall df, df_index df = [] ->
    df_index (fold_left (fun df kv => setitem df (snd kv)
                                        (fetch_hist_data yf_download (fst kv)))
                        l df)
    = first_index (map (fun kv => yf_download (fst kv)) l).
Proof.
  induction l as [|kv l IH]; intros df H; simpl; [exact H|].
  unfold fetch_hist_data at 2.
  destruct (yf_download (fst kv)) as [|p s] eqn:E.
  - apply IH. rewrite setitem_index, H. reflexivity.
  - rewrite fold_setitem_index_kept.
    + rewrite setitem_index, H. reflexivity.
    + rewrite setitem_index, H. discriminate.
Qed.

(** X1: the dates of the price table are those of the first sector, in
    dictionary order, whose download is not empty; later sectors and the
    benchmark add no date. *)
Theorem aprc_index_is_first_download (yf_download : string -> Series) :
  df_index (aprc yf_download)
  = first_index (map (fun kv => yf_download (fst kv)) tickers_names).
Proof.
  unfold aprc, join. cbn [df_index]. unfold aprc_sectors.
  now apply fold_setitem_index.
Qed.

Lemma setitem_columns (df : DataFrame) (name : string) (s : Series) :
  df_columns (setitem df name s)
  = match df_index df, s with
    | [], _ :: _ =>
        set_column name (s_reindex s (s_index s))
          (map (fun c => (fst c, repeat NaN (length s))) (df_columns df))
    | idx, _ => set_column name (s_reindex s idx) (df_columns df)
    end.
Proof.
  destruct df as [idx cols]. unfold setitem. cbn [df_index df_columns].
  destruct idx as [|i idx]; [destruct s as [|p s]|]; reflexivity.
Qed.

Lemma get_column_set_same (name : string) (col : list fl)
  (cols : list (string * list fl)) :
  get_column name (set_column name col cols) = col.
Proof.
  induction cols as [|[n c] rest IH]; simpl.
  - now rewrite String.eqb_refl.
  - destruct (String.eqb n name) eqn:E; simpl; rewrite E; [reflexivity | exact IH].
Qed.

Lemma get_column_set_other (name other : string) (col : list fl)
  (cols : list (string * list fl)) :
  other <> name ->
  get_column other (set_column name col cols) = get_column other cols.
Proof.
  intros Hne. induction cols as [|[n c] rest IH]; simpl.
  - destruct (String.eqb_spec name other) as [E|_]; [congruence | reflexivity].
  - destruct (String.eqb_spec n name) as [->|Hn]; simpl.
    + destruct (String.eqb_spec name other) as [E|_]; [congruence | reflexivity].
    + destruct (String.eqb n other); [reflexivity | exact IH].
Qed.

Lemma add_name_In (name n : string) (names : list string) :
  In n (add_name name names) <-> n = name \/ In n names.
Proof.
  induction names as [|m rest IH]; simpl.
  - intuition.
  - destruct (String.eqb_spec m name) as [->|Hne]; simpl.
    + intuition.
    + rewrite IH. intuition.
Qed.

Lemma s_reindex_empty (idx : list Z) : s_reindex [] idx = repeat NaN (length idx).
Proof.
  unfold s_reindex, reindex. simpl.
  induction idx as [|d idx IH]; simpl; [reflexivity | now rewrite IH].
Qed.

Lemma fold_setitem_columns (yf_download : string -> Series)
  (l : list (string * string)) :
  forall (done : list (string * string)) (df : DataFrame),
    NoDup (map snd (done ++ l)) ->
    (forall kv, In kv done ->
       In (snd kv) (col_names df)
       /\ get_column (snd kv) (df_columns df)
          = s_reindex (yf_download (fst kv)) (df_index df)) ->
    (df_index df = [] -> forall kv, In kv done -> yf_download (fst kv) = []) ->
    forall kv, In kv (done ++ l) ->
      get_column (snd kv)
        (df_columns
           (fold_left (fun df kv => setitem df (snd kv)
                                      (fetch_hist_data yf_download (fst kv)))
                      l df))
      = s_reindex (yf_download (fst kv))
          (df_index
             (fold_left (fun df kv => setitem df (snd kv)
                                        (fetch_hist_data yf_download (fst kv)))
                        l df)).
Proof.
  induction l as [|[k v] l IH]; intros done df Hnd Hcols Hempty kv Hin.
  - rewrite app_nil_r in Hin. simpl. now apply Hcols.
  - cbn [fold_left fst snd]. unfold fetch_hist_data at 2 4.
    assert (Hfresh : forall kv', In kv' done -> snd kv' <> v).
    { intros kv' Hin' E. rewrite map_app in Hnd. cbn [map snd] in Hnd.
      apply NoDup_remove_2 in Hnd. apply Hnd, in_or_app. left.
      rewrite <- E. now apply in_map. }
    replace (done ++ (k, v) :: l) with ((done ++ [(k, v)]) ++ l) in Hnd, Hin
      by (now rewrite <- app_assoc).
    set (s := yf_download k) in *.
    apply (IH (done ++ [(k, v)])); [exact Hnd | | | exact Hin].
    + intros kv' Hin'. rewrite setitem_names, add_name_In.
      rewrite setitem_columns, setitem_index.
      apply in_app_or in Hin'. destruct Hin' as [Hold|[<-|[]]].
      * destruct (Hcols _ Hold) as [Hname Hcol].
        pose proof (Hfresh _ Hold) as Hne.
        split; [now right|].
        destruct (df_index df) as [|i idx] eqn:Hidx.
        -- destruct s as [|p s'] eqn:Hs.
           ++ rewrite get_column_set_other by exact Hne. exact Hcol.
           ++ rewrite get_column_set_other by exact Hne.
              rewrite (get_column_map_present (fun _ => repeat NaN (length (p :: s'))))
                by exact Hname.
              rewrite (Hempty eq_refl _ Hold), s_reindex_empty.
              unfold s_index. now rewrite length_map.
        -- rewrite get_column_set_other by exact Hne. exact Hcol.
      * cbn [fst snd]. split; [now left|]. fold s.
        destruct (df_index df) as [|i idx]; [destruct s as [|p s']|];
          apply get_column_set_same.
    + intros Hidx kv' Hin'. rewrite setitem_index in Hidx.
      destruct (df_index df) as [|i idx] eqn:Hdf; [|discriminate].
      destruct s as [|p s'] eqn:Hs; [|discriminate].
      apply in_app_or in Hin'. destruct Hin' as [Hold|[<-|[]]].
      * now apply (Hempty eq_refl).
      * exact Hs.
Qed.

Lemma get_column_app_present (name : string) (cols more : list (string * list fl)) :
  In name (map fst cols) ->
  get_column name (cols ++ more) = get_column name cols.
Proof.
  induction cols as [|[n c] rest IH]; simpl; [tauto|].
  destruct (String.eqb_spec n name) as [->|Hne]; [reflexivity|].
  intros [H|H]; [contradiction | auto].
Qed.

Lemma get_column_app_absent (name : string) (cols more : list (string * list fl)) :
  ~ In name (map fst cols) ->
  get_column name (cols ++ more) = get_column name more.
Proof.
  induction cols as [|[n c] rest IH]; simpl; [reflexivity|].
  intros H. destruct (String.eqb_spec n name) as [->|Hne].
  - exfalso. apply H. now left.
  - apply IH. intros Hin. apply H. now right.
Qed.

Lemma sector_names (yf_download : string -> Series) :
  col_names (aprc_sectors yf_download) = map snd tickers_names.
Proof. unfold aprc_sectors. rewrite fold_setitem_names. reflexivity. Qed.

Lemma lookup_at_map (f : Z -> fl) (idx : list Z) (d : Z) :
  In d idx -> lookup_at idx (map f idx) d = f d.
Proof.
  induction idx as [|i idx IH]; simpl; [tauto|].
  destruct (Z.eqb_spec i d) as [->|Hne]; [reflexivity|].
  intros [H|H]; [contradiction | auto].
Qed.

(** X2: every column of the price table is its download aligned on the
    table's dates: the cell of a sector (or of the benchmark) at a date of
    the table is the downloaded price of that date, NaN when the download
    has none. *)
Theorem aprc_cell_is_downloaded_price (yf_download : string -> Series) :
  Forall (fun kv =>
            get_column (snd kv) (df_columns (aprc yf_download))
            = s_reindex (yf_download (fst kv)) (df_index (aprc yf_download))
            /\ forall d, In d (df_index (aprc yf_download)) ->
                 lookup_at (df_index (aprc yf_download))
                           (get_column (snd kv) (df_columns (aprc yf_download))) d
                 = lookup_at (s_index (yf_download (fst kv)))
                             (s_values (yf_download (fst kv))) d)
         (tickers_names ++ [("SPY", "SP500")]%string).
Proof.
  assert (Hcols : forall kv, In kv (tickers_names ++ [("SPY", "SP500")]%string) ->
            get_column (snd kv) (df_columns (aprc yf_download))
            = s_reindex (yf_download (fst kv)) (df_index (aprc yf_download))).
  { intros kv Hin. unfold aprc, join. cbn [df_columns df_index].
    apply in_app_or in Hin. destruct Hin as [Hin|[<-|[]]].
    - rewrite get_column_app_present
        by (change (In (snd kv) (col_names (aprc_sectors yf_download)));
            rewrite sector_names; now apply in_map).
      unfold aprc_sectors.
      apply (fold_setitem_columns yf_download tickers_names [] (mkDF [] [])).
      + vm_compute. repeat (constructor; [intros H; vm_compute in H; intuition discriminate|]).
        constructor.
      + intros ? [].
      + intros _ ? [].
      + exact Hin.
    - cbn [fst snd]. rewrite get_column_app_absent.
      + simpl. reflexivity.
      + change (~ In "SP500"%string (col_names (aprc_sectors yf_download))).
        rewrite sector_names. vm_compute. intuition discriminate. }
  apply Forall_forall. intros kv Hin. split; [now apply Hcols|].
  intros d Hd. rewrite (Hcols kv Hin). unfold s_reindex, reindex.
  now apply lookup_at_map.
Qed.

(** ** Shape of the derived tables *)

Lemma combine_columns_map (f : fl -> fl -> fl) (g h : list fl -> list fl)
  (cols : list (string * list fl)) :
  combine_columns f (map (fun c => (fst c, g (snd c))) cols)
                    (map (fun c => (fst c, h (snd c))) cols)
  = map (fun c => (fst c, zip_with f (g (snd c)) (h (snd c)))) cols.
Proof.
  unfold combine_columns.
  induction cols as [|c rest IH]; simpl; [reflexivity | now rewrite IH].
Qed.

Lemma dropna_columns_no_nan (df : DataFrame) :
  Forall (fun c => Forall (fun x => isnan x = false) (snd c))
         (df_columns (dropna df)).
Proof.
  unfold dropna. cbn [df_columns]. apply Forall_map.
  apply Forall_forall. intros [n c] Hin. cbn [snd].
  apply select_seq_Forall. intros i _ Hrow.
  eapply row_notna_cell; eauto.
Qed.

Lemma ratio_frame_wf (yf_download : string -> Series) :
  wf_frame (mul_scalar (Fin 100)
              (div_by_series (aprc yf_download) (sp500 yf_download))).
Proof.
  unfold wf_frame. rewrite ratio_frame_columns.
  change (df_index (mul_scalar (Fin 100)
            (div_by_series (aprc yf_download) (sp500 yf_download))))
    with (index_union (df_index (aprc yf_download))
                      (s_index (sp500 yf_download))).
  apply Forall_map, Forall_forall. intros c _. cbn [snd]. apply length_map.
Qed.

Lemma dropna_wf (df : DataFrame) : wf_frame df -> wf_frame (dropna df).
Proof.
  unfold wf_frame, dropna. cbn [df_index df_columns]. intros H.
  apply Forall_map. eapply Forall_impl; [|exact H].
  intros c Hc. cbn [snd]. now apply select_length_eq.
Qed.

Lemma mom_raw_wf (yf_download : string -> Series) : wf_frame (mom_raw yf_download).
Proof. unfold mom_raw. apply dropna_wf, ratio_frame_wf. Qed.

Lemma mom_columns (yf_download : string -> Series) :
  df_columns (mom yf_download)
  = map (fun c =>
           (fst c,
            replace_nan
              (zip_with fl_sub
                 (map (fun x => fl_log (fl_add (Fin 1) x)) (pct_change 63 (snd c)))
                 (map (fun x => fl_log (fl_add (Fin 1) x)) (pct_change 21 (snd c))))))
        (df_columns (mom_raw yf_download)).
Proof.
  unfold mom, mom_log, frame_op, log1p_frame, mom3, mom1, map_columns.
  cbn [df_columns]. rewrite !map_map. cbn [fst snd].
  rewrite (combine_columns_map fl_sub
             (fun c => map (fun x => fl_log (fl_add (Fin 1) x)) (pct_change 63 c))
             (fun c => map (fun x => fl_log (fl_add (Fin 1) x)) (pct_change 21 c))).
  rewrite map_map. reflexivity.
Qed.

Lemma mom_wf (yf_download : string -> Series) : wf_frame (mom yf_download).
Proof.
  pose proof (mom_raw_wf yf_download) as Hwf.
  pose proof (dropna_columns_no_nan
                (mul_scalar (Fin 100)
                   (div_by_series (aprc yf_download) (sp500 yf_download)))) as Hnan.
  fold (mom_raw yf_download) in Hnan.
  unfold wf_frame in *. rewrite mom_columns.
  change (df_index (mom yf_download)) with (df_index (mom_raw yf_download)).
  apply Forall_map. rewrite Forall_forall in *. intros c Hin. cbn [snd].
  rewrite replace_nan_length, zip_with_length, !length_map.
  rewrite !pct_change_length by (now apply Hnan).
  rewrite Nat.min_id. now apply Hwf.
Qed.

Lemma rs_mom_wf (yf_download : string -> Series) : wf_frame (rs_mom yf_download).
Proof.
  unfold rs_mom, rs_mom_standardized.
  apply map_columns_wf; [apply replace_nan_length|].
  apply map_columns_wf; [apply standardize_length|].
  apply mom_wf.
Qed.

Lemma map_columns_names (f : list fl -> list fl) (df : DataFrame) :
  col_names (map_columns f df) = col_names df.
Proof.
  unfold col_names, map_columns. cbn [df_columns]. rewrite map_map.
  apply map_ext. reflexivity.
Qed.

Lemma rs_names (yf_download : string -> Series) :
  col_names (rs yf_download) = col_names (aprc yf_download).
Proof.
  unfold rs, rs_standardized, rs_ratio, mul_scalar, div_by_column.
  now rewrite !map_columns_names.
Qed.

Lemma mom_raw_names (yf_download : string -> Series) :
  col_names (mom_raw yf_download) = col_names (aprc yf_download).
Proof.
  unfold mom_raw, dropna, col_names. cbn [df_columns].
  rewrite ratio_frame_columns, !map_map. apply map_ext. reflexivity.
Qed.

Lemma rs_mom_names (yf_download : string -> Series) :
  col_names (rs_mom yf_download) = col_names (aprc yf_download).
Proof.
  unfold rs_mom, rs_mom_standardized. rewrite !map_columns_names.
  unfold col_names. rewrite mom_columns, map_map. cbn [fst].
  apply mom_raw_names.
Qed.

(** X3: whatever is downloaded, the price table, the RS table and the MOM
    table have the same twelve columns, the eleven sectors in dictionary
    order followed by the benchmark, and in each table every column is as
    long as the table's index. *)
Theorem tables_keep_their_shape (yf_download : string -> Series) :
  col_names (aprc yf_download)
  = [ "CSRV"; "CD"; "CS"; "EN"; "FN"; "HC"; "IN"; "MT"; "RE"; "IT"; "UT";
      "SP500" ]%string
  /\ col_names (rs yf_download) = col_names (aprc yf_download)
  /\ col_names (rs_mom yf_download) = col_names (aprc yf_download)
  /\ wf_frame (aprc yf_download)
  /\ wf_frame (rs yf_download)
  /\ wf_frame (rs_mom yf_download).
Proof.
  repeat split.
  - apply aprc_names.
  - apply rs_names.
  - apply rs_mom_names.
  - apply aprc_wf.
  - apply rs_wf.
  - apply rs_mom_wf.
Qed.

Lemma rs_mom_columns (yf_download : string -> Series) :
  df_columns (rs_mom yf_download)
  = map (fun c => (fst c, replace_nan (standardize (snd c))))
        (df_columns (mom yf_download)).
Proof.
  unfold rs_mom, rs_mom_standardized, map_columns. cbn [df_columns].
  rewrite map_map. reflexivity.
Qed.

(** ** What the momentum measures *)

Lemma ln_ratio (a b : R) : 0 < a -> 0 < b -> ln (1 + (a / b + - 1)) = ln a - ln b.
Proof.
  intros Ha Hb. replace (1 + (a / b + - 1)) with (a * / b) by (unfold Rdiv; ring).
  rewrite ln_mult by (try apply Rinv_0_lt_compat; assumption).
  rewrite ln_Rinv by assumption. ring.
Qed.

Lemma log1p_pct_positive (a b : R) :
  0 < a -> 0 < b ->
  fl_log (fl_add (Fin 1) (fl_sub (fl_div (Fin a) (Fin b)) (Fin 1)))
  = Fin (ln a - ln b).
Proof.
  intros Ha Hb. rewrite fl_div_fin by lra. cbn [fl_sub fl_neg fl_add].
  assert (Hpos : 0 < 1 + (a / b + - 1)).
  { replace (1 + (a / b + - 1)) with (a * / b) by (unfold Rdiv; ring).
    apply Rmult_lt_0_compat; [exact Ha | now apply Rinv_0_lt_compat]. }
  rewrite fl_log_fin by exact Hpos. f_equal. now apply ln_ratio.
Qed.

(** The momentum column of a NaN-free ratio column, cell by cell. *)
Lemma mom_cells (r : list fl) (t : nat) :
  Forall (fun x => isnan x = false) r ->
  (t < length r)%nat ->
  nth_error
    (replace_nan
       (zip_with fl_sub
          (map (fun x => fl_log (fl_add (Fin 1) x)) (pct_change 63 r))
          (map (fun x => fl_log (fl_add (Fin 1) x)) (pct_change 21 r)))) t
  = Some (mom_raw_spec r t).
Proof.
  intros Hr Ht. unfold replace_nan. rewrite nth_error_map.
  rewrite (zip_with_nth_error fl_sub _ _ t
             (fl_log (fl_add (Fin 1) (pct_spec 63 r t)))
             (fl_log (fl_add (Fin 1) (pct_spec 21 r t))));
    [reflexivity | |];
    rewrite nth_error_map, pct_change_nth_error by assumption; reflexivity.
Qed.

Lemma short_history_mom_zero (r : list fl) :
  Forall (fun x => isnan x = false) r ->
  (length r <= 63)%nat ->
  Forall (fun x => x = Fin 0)
    (replace_nan
       (zip_with fl_sub
          (map (fun x => fl_log (fl_add (Fin 1) x)) (pct_change 63 r))
          (map (fun x => fl_log (fl_add (Fin 1) x)) (pct_change 21 r)))).
Proof.
  intros Hr Hlen. apply Forall_forall. intros x Hx.
  apply In_nth_error in Hx. destruct Hx as [t Hx].
  assert (Ht : (t < length r)%nat).
  { assert (H : nth_error
                  (replace_nan
                     (zip_with fl_sub
                        (map (fun x => fl_log (fl_add (Fin 1) x)) (pct_change 63 r))
                        (map (fun x => fl_log (fl_add (Fin 1) x)) (pct_change 21 r))))
                  t <> None) by (rewrite Hx; discriminate).
    apply nth_error_Some in H.
    rewrite replace_nan_length, zip_with_length, !length_map,
      !pct_change_length in H by exact Hr.
    lia. }
  rewrite mom_cells in Hx by assumption.
  rewrite mom_raw_spec_early in Hx by lia. congruence.
Qed.

(** X8: with at most 63 row-complete dates no sector has any momentum: the
    final MOM table is 0 in every cell, so every sector is drawn on the
    horizontal axis. *)
Theorem short_table_has_no_momentum (yf_download : string -> Series) :
  (length (df_index (mom_raw yf_download)) <= 63)%nat ->
  Forall (fun c => Forall (fun x => x = Fin 0) (snd c))
         (df_columns (rs_mom yf_download)).
Proof.
  intros Hlen. rewrite rs_mom_columns, mom_columns, map_map. cbn [fst snd].
  apply Forall_map.
  pose proof (mom_raw_wf yf_download) as Hwf.
  pose proof (dropna_columns_no_nan
                (mul_scalar (Fin 100)
                   (div_by_series (aprc yf_download) (sp500 yf_download)))) as Hnan.
  fold (mom_raw yf_download) in Hnan.
  unfold wf_frame in Hwf. rewrite Forall_forall in *.
  intros c Hc. cbn [snd]. apply (standardize_constant 0).
  eapply Forall_impl; [|apply short_history_mom_zero].
  - intros x ->. now right.
  - now apply Hnan.
  - rewrite (Hwf c Hc). exact Hlen.
Qed.

Lemma short_table_has_no_momentum_witness :
  (length (df_index (mom_raw yf_gap)) <= 63)%nat
  /\ Forall (fun c => Forall (fun x => x = Fin 0) (snd c))
            (df_columns (rs_mom yf_gap)).
Proof.
  assert (H : (length (df_index (mom_raw yf_gap)) <= 63)%nat).
  { rewrite <- rs_mom_index, (proj2 gap_indexes). simpl. lia. }
  split; [exact H|]. exact (short_table_has_no_momentum yf_gap H).
Defined.

(** ** Marker and trail *)

Lemma iloc_last_None {A : Type} (l : list A) : iloc_last l = None <-> l = [].
Proof.
  unfold iloc_last. split.
  - destruct (rev l) eqn:E; [|discriminate]. intros _.
    rewrite <- (rev_involutive l), E. reflexivity.
  - intros ->. reflexivity.
Qed.

Lemma iloc_last_tail_n {A : Type} (n : nat) (l : list A) :
  (0 < n)%nat -> iloc_last (tail_n n l) = iloc_last l.
Proof.
  intros Hn. unfold iloc_last, tail_n. rewrite <- firstn_rev.
  destruct (rev l) as [|x r]; [now rewrite firstn_nil|].
  destruct n as [|n]; [lia | reflexivity].
Qed.

Lemma iloc_last_iloc_from {A : Type} (k : Z) (l : list A) :
  (k <= 0)%Z -> iloc_last (iloc_from k l) = iloc_last l.
Proof.
  intros Hk. destruct (Z.eq_dec k 0) as [->|Hne].
  - now rewrite iloc_from_0.
  - replace k with (- Z.of_nat (Z.to_nat (- k)))%Z by lia.
    rewrite iloc_from_neg by lia. apply iloc_last_tail_n. lia.
Qed.

Lemma lookback_period_slider (sel : string) :
  In sel slider_options -> exists k, lookback_period sel = Some k /\ (k <= 0)%Z.
Proof.
  intros H. unfold slider_options in H. cbn [In] in H.
  repeat (destruct H as [<-|H]; [eexists; split; [reflexivity | lia]|]).
  destruct H.
Qed.

Lemma marker_None (yf_download : string -> Series) (etf : string) :
  marker yf_download etf = None
  <-> get_column etf (df_columns (rs yf_download)) = []
      \/ get_column etf (df_columns (rs_mom yf_download)) = [].
Proof.
  unfold marker. rewrite <- !iloc_last_None.
  destruct (iloc_last _), (iloc_last _); intuition discriminate.
Qed.

Lemma sector_marker_None (yf_download : string -> Series) (etf : string) :
  In etf (map snd tickers_names) ->
  marker yf_download etf = None
  <-> df_index (rs yf_download) = [] \/ df_index (rs_mom yf_download) = [].
Proof.
  intros Hin. apply sector_is_column with (yf_download := yf_download) in Hin.
  rewrite marker_None, <- !length_zero_iff_nil.
  now rewrite rs_column_length, rs_mom_column_length by exact Hin.
Qed.

Lemma marker_Some (yf_download : string -> Series) (etf : string) (mx my : fl) :
  marker yf_download etf = Some (mx, my) ->
  iloc_last (get_column etf (df_columns (rs yf_download))) = Some mx
  /\ iloc_last (get_column etf (df_columns (rs_mom yf_download))) = Some my.
Proof.
  unfold marker.
  destruct (iloc_last (get_column etf (df_columns (rs yf_download)))),
    (iloc_last (get_column etf (df_columns (rs_mom yf_download))));
    try discriminate.
  intros E. injection E as -> ->. now split.
Qed.

Lemma sector_traces_pair (yf_download : string -> Series)
  (sel : string) (i : nat) (etf_names etf : string) (ts : list trace) :
  In sel slider_options ->
  sector_traces yf_download sel i etf_names etf = Some ts ->
  exists p,
    ts = traces_of_pair p
    /\ tr_name (fst p) = (etf ++ ": " ++ etf_names)%string
    /\ nth_error colors i = Some (tr_color (fst p))
    /\ marker yf_download etf <> None
    /\ trail yf_download sel etf = Some (tr_x (snd p), tr_y (snd p))
    /\ marker_on_line_end p.
Proof.
  intros Hsel. unfold sector_traces.
  destruct (lookback_period_slider sel Hsel) as (k & Hk & Hle).
  destruct (marker yf_download etf) as [[mx my]|] eqn:Hm; [|discriminate].
  apply marker_Some in Hm. destruct Hm as [Hx Hy].
  destruct (nth_error colors i) as [color|]; [|discriminate].
  unfold trail. rewrite Hk.
  set (xs := iloc_from k (get_column etf (df_columns (rs yf_download)))).
  set (ys := iloc_from k (get_column etf (df_columns (rs_mom yf_download)))).
  assert (Hxs : iloc_last xs = Some mx).
  { unfold xs. now rewrite iloc_last_iloc_from. }
  assert (Hys : iloc_last ys = Some my).
  { unfold ys. now rewrite iloc_last_iloc_from. }
  clearbody xs ys. intros E. injection E as <-.
  exists (mkTrace "markers" (etf ++ ": " ++ etf_names) color [mx] [my],
          mkTrace "lines" (etf ++ ": " ++ etf_names) color xs ys).
  unfold marker_on_line_end, traces_of_pair.
  cbn [fst snd tr_mode tr_name tr_color tr_x tr_y].
  split; [reflexivity|]. split; [reflexivity|]. split; [reflexivity|].
  split; [discriminate|]. split; [reflexivity|].
  split; [reflexivity|]. split; [reflexivity|]. split; [reflexivity|].
  split; [reflexivity|].
  exists mx, my. now repeat split.
Qed.

Lemma add_traces_acc (yf_download : string -> Series) (sel : string)
  (items : list (string * string)) :
  forall i fig,
    add_traces yf_download sel i items fig
    = option_map (app fig) (add_traces yf_download sel i items []).
Proof.
  induction items as [|[etf_names etf] items IH]; intros i fig; cbn [add_traces].
  - cbn [option_map]. now rewrite app_nil_r.
  - destruct (sector_traces yf_download sel i etf_names etf) as [ts|];
      [|reflexivity].
    rewrite (IH (S i) (fig ++ ts)), (IH (S i) ([] ++ ts)).
    destruct (add_traces yf_download sel (S i) items []) as [out|];
      [|reflexivity].
    cbn [option_map app]. now rewrite app_assoc.
Qed.

Lemma add_traces_pairs (yf_download : string -> Series) (sel : string)
  (items : list (string * string)) :
  In sel slider_options ->
  forall i fig,
    add_traces yf_download sel i items [] = Some fig ->
    exists pairs,
      fig = flat_map traces_of_pair pairs
      /\ map (fun p => tr_name (fst p)) pairs
         = map (fun kv => (snd kv ++ ": " ++ fst kv)%string) items
      /\ map (fun p => tr_color (fst p)) pairs
         = firstn (length items) (skipn i colors)
      /\ (length items <= length (skipn i colors))%nat
      /\ Forall (fun kv => marker yf_download (snd kv) <> None) items
      /\ Forall marker_on_line_end pairs.
Proof.
  intros Hsel.
  induction items as [|[etf_names etf] items IH]; intros i fig; cbn [add_traces].
  - intros E. injection E as <-. exists []. cbn. repeat split; try constructor.
    lia.
  - destruct (sector_traces yf_download sel i etf_names etf) as [ts|] eqn:Hts;
      [|discriminate].
    rewrite add_traces_acc.
    destruct (add_traces yf_download sel (S i) items []) as [out|] eqn:Hout;
      [|discriminate].
    cbn [option_map app]. intros E. injection E as <-.
    destruct (sector_traces_pair _ _ _ _ _ _ Hsel Hts)
      as (p & -> & Hname & Hcolor & Hmark & _ & Hp).
    destruct (IH _ _ Hout) as (pairs & -> & Hnames & Hcolors & Hlen & Hmarks & Hall).
    exists (p :: pairs). cbn [flat_map map length fst snd].
    assert (Hskip : skipn i colors = tr_color (fst p) :: skipn (S i) colors).
    { clear -Hcolor. revert Hcolor. generalize colors. 
      induction i as [|i IHi]; intros [|c l] H; try discriminate.
      - injection H as <-. reflexivity.
      - cbn [skipn]. apply (IHi l H). }
    rewrite Hskip. cbn [firstn length].
    repeat split.
    + now rewrite Hname, Hnames.
    + now rewrite Hcolors.
    + lia.
    + constructor; assumption.
    + constructor; assumption.
Qed.

Lemma add_traces_runs (yf_download : string -> Series) (sel : string)
  (items : list (string * string)) :
  In sel slider_options ->
  Forall (fun kv => marker yf_download (snd kv) <> None) items ->
  forall i,
    (i + length items <= length colors)%nat ->
    add_traces yf_download sel i items [] <> None.
Proof.
  intros Hsel Hitems. destruct (lookback_period_slider sel Hsel) as (k & Hk & _).
  induction Hitems as [|[etf_names etf] items Hm _ IH]; intros i Hi;
    cbn [add_traces]; [discriminate|].
  cbn [length snd] in *. unfold sector_traces.
  destruct (marker yf_download etf) as [[mx my]|]; [|contradiction].
  destruct (nth_error colors i) as [color|] eqn:Hc;
    [|apply nth_error_None in Hc; lia].
  unfold trail. rewrite Hk. rewrite add_traces_acc.
  specialize (IH (S i)).
  destruct (add_traces yf_download sel (S i) items []);
    [discriminate | apply IH; lia].
Qed.

(** X9: the loop of lines 112-127 either stops at its first marker trace,
    which happens exactly when the RS table or the MOM table has no date
    (no line trace is built then), or adds for every sector, in dictionary
    order, a one-point marker trace followed by a line trace of the same
    name and color, the marker being the last point of the line on both
    axes, for every slider position; the palette has a color for each
    sector. *)
Theorem marker_ends_the_trail (yf_download : string -> Series) (sel : string) :
  In sel slider_options ->
  (figure_traces yf_download sel = None
   <-> df_index (rs yf_download) = [] \/ df_index (rs_mom yf_download) = [])
  /\ (forall fig,
        figure_traces yf_download sel = Some fig ->
        exists pairs,
          fig = flat_map traces_of_pair pairs
          /\ map (fun p => tr_name (fst p)) pairs
             = map (fun kv => (snd kv ++ ": " ++ fst kv)%string) tickers_names
          /\ map (fun p => tr_color (fst p)) pairs = colors
          /\ Forall marker_on_line_end pairs).
Proof.
  intros Hsel. split.
  - split.
    + intros Hnone.
      destruct (list_eq_dec Z.eq_dec (df_index (rs yf_download)) [])
        as [E|Hrs]; [now left|].
      destruct (list_eq_dec Z.eq_dec (df_index (rs_mom yf_download)) [])
        as [E|Hmom]; [now right|].
      exfalso.
      assert (Hall : Forall (fun kv => marker yf_download (snd kv) <> None)
                            tickers_names).
      { apply Forall_forall. intros kv Hkv Hm.
        apply sector_marker_None in Hm; [|now apply in_map].
        destruct Hm as [E|E]; [now apply Hrs | now apply Hmom]. }
      assert (Hlen : (0 + length tickers_names <= length colors)%nat).
      { vm_compute. lia. }
      exact (add_traces_runs yf_download sel tickers_names Hsel Hall 0%nat
               Hlen Hnone).
    + intros Hempty.
      assert (Hm : marker yf_download "CSRV" = None).
      { apply sector_marker_None; [now left | exact Hempty]. }
      unfold figure_traces, tickers_names. cbn [add_traces].
      unfold sector_traces. rewrite Hm. reflexivity.
  - intros fig Hfig.
    destruct (add_traces_pairs yf_download sel tickers_names Hsel 0%nat fig Hfig)
      as (pairs & Hf & Hnames & Hcolors & _ & _ & Hall).
    exists pairs.
    split; [exact Hf|]. split; [exact Hnames|]. split; [exact Hcolors|].
    exact Hall.
Qed.

Lemma rise_indexes :
  df_index (rs yf_rise) = [0%Z; 1%Z] /\ df_index (rs_mom yf_rise) = [0%Z; 1%Z].
Proof.
  split.
  - eval_frame. reflexivity.
  - rewrite rs_mom_index. unfold mom_raw. eval_frame. reflexivity.
Qed.

Lemma marker_ends_the_trail_witness :
  In "7D"%string slider_options
  /\ exists fig pairs,
       figure_traces yf_rise "7D" = Some fig
       /\ fig = flat_map traces_of_pair pairs
       /\ map (fun p => tr_color (fst p)) pairs = colors
       /\ Forall marker_on_line_end pairs.
Proof.
  assert (H : In "7D"%string slider_options) by (right; right; now left).
  split; [exact H|].
  destruct (marker_ends_the_trail yf_rise "7D" H) as [Hnone Hsome].
  destruct (figure_traces yf_rise "7D") as [fig|].
  - destruct (Hsome fig eq_refl) as (pairs & Hf & _ & Hc & Hall).
    exists fig, pairs.
    split; [reflexivity|]. split; [exact Hf|]. split; [exact Hc | exact Hall].
  - exfalso. destruct rise_indexes as [Hrs Hmom].
    destruct (proj1 Hnone eq_refl) as [E|E];
      [rewrite Hrs in E | rewrite Hmom in E]; discriminate.
Defined.

(** ** The momentum ratio and the RS ratio *)

Lemma select_map {A B : Type} (f : A -> B) (keep : list bool) (l : list A) :
  select keep (map f l) = map f (select keep l).
Proof.
  revert l; induction keep as [|k keep IH]; intros [|x l]; simpl;
    try reflexivity.
  destruct k; simpl; now rewrite IH.
Qed.

Lemma lookup_at_ratio (g : fl -> fl -> fl) (h : Z -> fl)
  (idx : list Z) (col : list fl) (d : Z) :
  length col = length idx -> In d idx ->
  lookup_at idx (zip_with g col (map h idx)) d = g (lookup_at idx col d) (h d).
Proof.
  revert col; induction idx as [|i idx IH]; intros [|v col] Hlen Hin;
    try discriminate; [destruct Hin|].
  simpl. destruct (Z.eqb_spec i d) as [->|Hne]; [reflexivity|].
  destruct Hin as [E|Hin]; [contradiction|].
  apply IH; [now injection Hlen | exact Hin].
Qed.

Lemma lookup_at_map_values (f : fl -> fl) (idx : list Z) (col : list fl) (d : Z) :
  f NaN = NaN ->
  lookup_at idx (map f col) d = f (lookup_at idx col d).
Proof.
  intros Hf. revert col; induction idx as [|i idx IH]; intros [|v col]; simpl;
    try (now rewrite Hf).
  destruct (Z.eqb i d); [reflexivity | apply IH].
Qed.

Lemma sp500_column (yf_download : string -> Series) :
  get_column "SP500" (df_columns (aprc yf_download))
  = s_reindex (sp500 yf_download) (df_index (aprc yf_download)).
Proof.
  unfold aprc, join. cbn [df_columns df_index].
  rewrite get_column_app_absent.
  - simpl. reflexivity.
  - change (~ In "SP500"%string (col_names (aprc_sectors yf_download))).
    rewrite sector_names. vm_compute. intuition discriminate.
Qed.

Lemma mom_raw_column_values (yf_download : string -> Series) (etf : string) :
  In etf (col_names (aprc yf_download)) ->
  get_column etf (df_columns (mom_raw yf_download))
  = map (ratio_at yf_download (get_column etf (df_columns (aprc yf_download))))
        (df_index (mom_raw yf_download)).
Proof.
  intros Hin. unfold mom_raw, dropna. cbn [df_columns df_index].
  rewrite (get_column_map (select _)) by apply select_nil.
  rewrite ratio_frame_columns.
  rewrite (get_column_map_present
             (fun c => map (ratio_at yf_download c)
                           (index_union (df_index (aprc yf_download))
                                        (s_index (sp500 yf_download)))))
    by exact Hin.
  rewrite select_map. reflexivity.
Qed.

(** C5: the momentum ratio is computed on the row-complete dates, on all of
    them and on no other.  A date is in the momentum table exactly when it is
    in the price table and no column has an undefined ratio on it; a date on
    which any column of the price table (a sector or the benchmark) has no
    price is therefore absent; every column of the momentum table holds the
    ratio to the benchmark on the dates kept; the RS table keeps the whole
    index of the price table, with a cell for each date in every column. *)
Theorem mom_only_on_row_complete_dates (yf_download : string -> Series) :
  (forall d, In d (df_index (mom_raw yf_download))
             <-> In d (df_index (aprc yf_download))
                 /\ row_complete yf_download d = true)
  /\ (forall d etf col,
        In (etf, col) (df_columns (aprc yf_download)) ->
        isnan (lookup_at (df_index (aprc yf_download)) col d) = true ->
        ~ In d (df_index (mom_raw yf_download)))
  /\ (forall etf,
        In etf (col_names (aprc yf_download)) ->
        get_column etf (df_columns (mom_raw yf_download))
        = map (ratio_at yf_download
                 (get_column etf (df_columns (aprc yf_download))))
              (df_index (mom_raw yf_download)))
  /\ df_index (rs yf_download) = df_index (aprc yf_download)
  /\ wf_frame (rs yf_download).
Proof.
  split; [apply mom_raw_index_In|]. split; [|split; [|split]].
  - intros d etf col Hin Hnan Hd.
    apply mom_raw_index_In in Hd. destruct Hd as [_ Hrow].
    rewrite (row_complete_cell _ _ _ _ Hin Hrow) in Hnan. discriminate.
  - apply mom_raw_column_values.
  - apply rs_index.
  - apply rs_wf.
Qed.

Lemma row_complete_gap_first : row_complete yf_gap 0 = true.
Proof. unfold row_complete, ratio_at. eval_frame. reflexivity. Qed.

Lemma mom_only_on_row_complete_dates_witness :
  (In 0%Z (df_index (aprc yf_gap))
   /\ row_complete yf_gap 0 = true
   /\ In 0%Z (df_index (mom_raw yf_gap)))
  /\ (In ("CD"%string, [Fin 1; NaN]) (df_columns (aprc yf_gap))
      /\ isnan (lookup_at (df_index (aprc yf_gap)) [Fin 1; NaN] 1%Z) = true
      /\ ~ In 1%Z (df_index (mom_raw yf_gap))).
Proof.
  destruct aprc_gap_columns as (_ & _ & _ & Hidx).
  assert (Hin : In 0%Z (df_index (aprc yf_gap))).
  { rewrite Hidx. now left. }
  assert (Hnan : isnan (lookup_at (df_index (aprc yf_gap)) [Fin 1; NaN] 1%Z)
                 = true).
  { rewrite Hidx. reflexivity. }
  destruct (mom_only_on_row_complete_dates yf_gap) as (Hiff & Hout & _).
  split.
  - split; [exact Hin|]. split; [exact row_complete_gap_first|].
    apply Hiff. split; [exact Hin | exact row_complete_gap_first].
  - split; [exact aprc_gap_has_cd_column|]. split; [exact Hnan|].
    exact (Hout 1%Z "CD"%string [Fin 1; NaN] aprc_gap_has_cd_column Hnan).
Defined.

(** X10: the momentum ratio is the RS ratio restricted to the row-complete
    dates: in every column, the cell that the momentum table holds for a date
    is the cell that the RS ratio holds for that date. *)
Theorem mom_raw_is_rs_ratio_on_kept_dates (yf_download : string -> Series) :
  Forall (fun etf =>
            get_column etf (df_columns (mom_raw yf_download))
            = map (lookup_at (df_index (rs_ratio yf_download))
                             (get_column etf (df_columns (rs_ratio yf_download))))
                  (df_index (mom_raw yf_download)))
         (col_names (aprc yf_download)).
Proof.
  apply Forall_forall. intros etf Hin.
  rewrite (mom_raw_column_values yf_download etf Hin).
  apply map_ext_in. intros d Hd.
  apply mom_raw_index_In in Hd. destruct Hd as [Hd _].
  change (df_index (rs_ratio yf_download)) with (df_index (aprc yf_download)).
  rewrite rs_ratio_column, sp500_column.
  rewrite (lookup_at_map_values (fun x => fl_mul x (Fin 100))) by reflexivity.
  unfold s_reindex, reindex.
  rewrite lookup_at_ratio; [reflexivity | | exact Hd].
  apply get_column_wf; [apply aprc_wf | exact Hin].
Qed.

(** ** A sector that follows the benchmark *)

Lemma zip_with_self (f : fl -> fl -> fl) (l : list fl) :
  zip_with f l l = map (fun x => f x x) l.
Proof. induction l as [|x l IH]; simpl; [reflexivity | now rewrite IH]. Qed.

Lemma self_ratio_cell (x : fl) :
  fl_mul (fl_div x x) (Fin 100) = self_ratio x.
Proof.
  destruct x as [| | |b]; try reflexivity.
  unfold fl_div, self_ratio. destruct (Req_dec_T b 0) as [->|Hb].
  - destruct (Req_dec_T 0 0) as [_|H]; [reflexivity | lra].
  - cbn [fl_mul]. f_equal. field. exact Hb.
Qed.

Lemma self_ratio_cases (x : fl) : self_ratio x = NaN \/ self_ratio x = Fin 100.
Proof.
  destruct x as [| | |b]; try (now left).
  unfold self_ratio. destruct (Req_dec_T b 0); [now left | now right].
Qed.

Lemma constant_ratio_mom_zero (c : R) (r : list fl) :
  0 < c ->
  Forall (fun x => x = Fin c) r ->
  Forall (fun x => x = Fin 0)
    (replace_nan
       (zip_with fl_sub
          (map (fun x => fl_log (fl_add (Fin 1) x)) (pct_change 63 r))
          (map (fun x => fl_log (fl_add (Fin 1) x)) (pct_change 21 r)))).
Proof.
  intros Hc Hr.
  assert (Hnan : Forall (fun x => isnan x = false) r).
  { eapply Forall_impl; [|exact Hr]. intros x ->. reflexivity. }
  assert (Hnth : forall i, (i < length r)%nat -> nth i r NaN = Fin c).
  { intros i Hi. rewrite Forall_forall in Hr. apply Hr. now apply nth_In. }
  apply Forall_forall. intros x Hx.
  apply In_nth_error in Hx. destruct Hx as [t Hx].
  assert (Ht : (t < length r)%nat).
  { assert (H : nth_error
                  (replace_nan
                     (zip_with fl_sub
                        (map (fun x => fl_log (fl_add (Fin 1) x)) (pct_change 63 r))
                        (map (fun x => fl_log (fl_add (Fin 1) x)) (pct_change 21 r))))
                  t <> None) by (rewrite Hx; discriminate).
    apply nth_error_Some in H.
    rewrite replace_nan_length, zip_with_length, !length_map,
      !pct_change_length in H by exact Hnan.
    lia. }
  rewrite mom_cells in Hx by assumption. injection Hx as <-.
  destruct (Nat.lt_ge_cases t 63) as [Hearly|Hlate];
    [now apply mom_raw_spec_early|].
  unfold mom_raw_spec, pct_spec.
  destruct (Nat.ltb_spec t 63) as [H|_]; [lia|].
  destruct (Nat.ltb_spec t 21) as [H|_]; [lia|].
  rewrite !Hnth by lia. rewrite !log1p_pct_positive by exact Hc.
  cbn [fl_sub fl_neg fl_add sanitize isnan]. f_equal. ring.
Qed.

(** X11: a sector whose row-complete ratio to the benchmark is one positive
    number on every date has no momentum: its final MOM column is 0 on every
    date. *)
Theorem constant_ratio_has_no_momentum
  (yf_download : string -> Series) (etf : string) (c : R) :
  0 < c ->
  Forall (fun x => x = Fin c)
         (get_column etf (df_columns (mom_raw yf_download))) ->
  Forall (fun x => x = Fin 0)
         (get_column etf (df_columns (rs_mom yf_download))).
Proof.
  intros Hc Hr. rewrite rs_mom_column, mom_column, mom_log_column.
  apply (standardize_constant 0).
  eapply Forall_impl; [|now apply (constant_ratio_mom_zero c)].
  intros x ->. now right.
Qed.

Lemma mom_raw_level_column :
  get_column "CSRV" (df_columns (mom_raw yf_level)) = repeat (Fin (2 / 1 * 100)) 64.
Proof. unfold mom_raw. eval_frame. reflexivity. Qed.

Lemma constant_ratio_has_no_momentum_witness :
  0 < 200
  /\ Forall (fun x => x = Fin 200)
            (get_column "CSRV" (df_columns (mom_raw yf_level)))
  /\ length (get_column "CSRV" (df_columns (mom_raw yf_level))) = 64%nat
  /\ Forall (fun x => x = Fin 0)
            (get_column "CSRV" (df_columns (rs_mom yf_level))).
Proof.
  assert (Hc : 0 < 200) by lra.
  assert (Hr : Forall (fun x => x = Fin 200)
                      (get_column "CSRV" (df_columns (mom_raw yf_level)))).
  { rewrite mom_raw_level_column. apply Forall_forall. intros x Hx.
    apply repeat_spec in Hx. subst x. f_equal. lra. }
  split; [exact Hc|]. split; [exact Hr|]. split.
  - rewrite mom_raw_level_column. apply repeat_length.
  - exact (constant_ratio_has_no_momentum yf_level "CSRV" 200 Hc Hr).
Defined.

(** X12: line 62 divides the benchmark column by itself as well: its ratio is
    100 wherever the benchmark price is a non-zero number and undefined
    elsewhere (a missing, zero or infinite price), date by date, so the
    benchmark's own RS column and MOM column are 0 on every date. *)
Theorem benchmark_column_is_zero (yf_download : string -> Series) :
  get_column "SP500" (df_columns (rs_ratio yf_download))
  = map self_ratio (get_column "SP500" (df_columns (aprc yf_download)))
  /\ get_column "SP500" (df_columns (aprc yf_download))
     = s_reindex (sp500 yf_download) (df_index (aprc yf_download))
  /\ length (get_column "SP500" (df_columns (rs_ratio yf_download)))
     = length (df_index (aprc yf_download))
  /\ Forall (fun x => x = Fin 0)
            (get_column "SP500" (df_columns (rs yf_download)))
  /\ Forall (fun x => x = Fin 0)
            (get_column "SP500" (df_columns (rs_mom yf_download))).
Proof.
  assert (Hratio : get_column "SP500" (df_columns (rs_ratio yf_download))
                   = map self_ratio
                         (get_column "SP500" (df_columns (aprc yf_download)))).
  { rewrite rs_ratio_column, zip_with_self, map_map.
    apply map_ext. intros x. apply self_ratio_cell. }
  assert (Hcases : Forall (fun x => x = NaN \/ x = Fin 100)
                     (get_column "SP500" (df_columns (rs_ratio yf_download)))).
  { rewrite Hratio. apply Forall_map, Forall_forall. intros x _.
    apply self_ratio_cases. }
  assert (Hin : In "SP500"%string (col_names (aprc yf_download))).
  { rewrite aprc_names. apply in_or_app. right. now left. }
  split; [exact Hratio|]. split; [apply sp500_column|]. split.
  - rewrite Hratio, length_map. apply get_column_wf; [apply aprc_wf | exact Hin].
  - split.
    + rewrite rs_column. now apply (standardize_constant 100).
    + rewrite rs_mom_column, mom_column, mom_log_column.
      apply (standardize_constant 0).
      eapply Forall_impl;
        [|apply (constant_ratio_mom_zero 100); [lra|]].
      * intros x ->. now right.
      * pose proof (dropna_no_nan
                      (mul_scalar (Fin 100)
                         (div_by_series (aprc yf_download) (sp500 yf_download)))
                      "SP500") as Hnan.
        fold (mom_raw yf_download) in Hnan.
        rewrite (mom_raw_column_values yf_download "SP500" Hin) in *.
        rewrite Forall_map in *. rewrite Forall_forall in *.
        intros d Hd. specialize (Hnan d Hd).
        pose proof (proj1 (mom_raw_index_In yf_download d) Hd) as [Hidx _].
        unfold ratio_at in *. rewrite sp500_column in *.
        unfold s_reindex, reindex in *.
        rewrite lookup_at_map in * by exact Hidx.
        rewrite self_ratio_cell in *.
        destruct (self_ratio_cases
                    (lookup_at (s_index (sp500 yf_download))
                               (s_values (sp500 yf_download)) d)) as [E|E].
        -- rewrite E in Hnan. discriminate.
        -- exact E.
Qed.

(** ** Dates in ascending order *)

Lemma insert_date_sorted (d : Z) (l : list Z) :
  StronglySorted Z.lt l -> StronglySorted Z.lt (insert_date d l).
Proof.
  induction 1 as [|x l Hs IH Hx]; simpl.
  - repeat constructor.
  - destruct (Z.ltb_spec d x) as [Hlt|Hge].
    + constructor; [now constructor|].
      constructor; [exact Hlt|].
      eapply Forall_impl; [|exact Hx]. intros y Hy. cbv beta in Hy. lia.
    + destruct (Z.eqb_spec d x) as [->|Hne]; [now constructor|].
      constructor; [exact IH|].
      apply Forall_forall. intros y Hy. apply insert_date_In in Hy.
      destruct Hy as [->|Hy]; [lia|].
      rewrite Forall_forall in Hx. now apply Hx.
Qed.

Lemma index_union_ascending (a b : list Z) : StronglySorted Z.lt (index_union a b).
Proof.
  unfold index_union. induction (a ++ b) as [|d l IH]; simpl.
  - constructor.
  - now apply insert_date_sorted.
Qed.

Lemma filter_sorted (f : Z -> bool) (l : list Z) :
  StronglySorted Z.lt l -> StronglySorted Z.lt (filter f l).
Proof.
  induction 1 as [|x l Hs IH Hx]; simpl; [constructor|].
  destruct (f x); [|exact IH].
  constructor; [exact IH|].
  apply Forall_forall. intros y Hy. apply filter_In in Hy.
  rewrite Forall_forall in Hx. now apply Hx.
Qed.

Lemma sorted_same_members (l1 l2 : list Z) :
  StronglySorted Z.lt l1 -> StronglySorted Z.lt l2 ->
  (forall d, In d l1 <-> In d l2) -> l1 = l2.
Proof.
  intros H1. revert l2. induction H1 as [|x l1 Hs1 IH Hx]; intros l2 H2 Hmem.
  - destruct l2 as [|y l2]; [reflexivity|].
    exfalso. apply (proj2 (Hmem y)). now left.
  - destruct H2 as [|y l2 Hs2 Hy].
    + exfalso. apply (proj1 (Hmem x)). now left.
    + rewrite Forall_forall in Hx, Hy.
      assert (x = y).
      { destruct (proj1 (Hmem x) (or_introl eq_refl)) as [E|Hin]; [now symmetry|].
        destruct (proj2 (Hmem y) (or_introl eq_refl)) as [E|Hin']; [exact E|].
        specialize (Hx _ Hin'). specialize (Hy _ Hin). lia. }
      subst y. f_equal. apply IH; [exact Hs2|].
      intros d. split; intros Hd.
      * destruct (proj1 (Hmem d) (or_intror Hd)) as [E|Hin]; [|exact Hin].
        specialize (Hx _ Hd). lia.
      * destruct (proj2 (Hmem d) (or_intror Hd)) as [E|Hin]; [|exact Hin].
        specialize (Hy _ Hd). lia.
Qed.

(** X13: when the price table's dates are in ascending order, the dates of the
    momentum table are the row-complete dates of the price table in the same
    order (nothing is reordered or repeated by the alignment with the
    benchmark), and they are ascending too. *)
Theorem mom_dates_keep_table_order (yf_download : string -> Series) :
  StronglySorted Z.lt (df_index (aprc yf_download)) ->
  df_index (mom_raw yf_download)
  = filter (row_complete yf_download) (df_index (aprc yf_download))
  /\ StronglySorted Z.lt (df_index (mom_raw yf_download)).
Proof.
  intros Hs.
  assert (Hsorted : StronglySorted Z.lt (df_index (mom_raw yf_download))).
  { rewrite mom_raw_index. apply filter_sorted, index_union_ascending. }
  split; [|exact Hsorted].
  apply sorted_same_members; [exact Hsorted | now apply filter_sorted |].
  intros d. rewrite mom_raw_index_In, filter_In. reflexivity.
Qed.

Lemma mom_dates_keep_table_order_witness :
  StronglySorted Z.lt (df_index (aprc yf_gap))
  /\ df_index (mom_raw yf_gap)
     = filter (row_complete yf_gap) (df_index (aprc yf_gap)).
Proof.
  assert (H : StronglySorted Z.lt (df_index (aprc yf_gap))).
  { destruct aprc_gap_columns as (_ & _ & _ & ->).
    repeat constructor. }
  split; [exact H|]. exact (proj1 (mom_dates_keep_table_order yf_gap H)).
Defined.

(** ** Shading and signs *)

Ltac q_to_z :=
  unfold in_plot_area, in_rect, Qpositive, Qnegative, Qle_bool in *;
  cbn [Qnum Qden r_x0 r_x1 r_y0 r_y1] in *;
  repeat rewrite ?andb_true_iff, ?andb_false_iff, ?negb_true_iff,
    ?negb_false_iff, ?Z.leb_le, ?Z.leb_gt in *;
  try lia.

(** X14: the shading agrees with the signs at every point of the plot area,
    not only at the four labels: a point with RS and MOM both non-zero lies in
    exactly one shaded rectangle, the one that carries the label of the
    quadrant its signs select. *)
Theorem shading_follows_signs (x y : Q) (q : quadrant) :
  in_plot_area x y = true ->
  quadrant_of x y = Some q ->
  exists r,
    In r quadrant_rects
    /\ in_rect r x y = true
    /\ (forall r', In r' quadrant_rects -> in_rect r' x y = true -> r' = r)
    /\ existsb (fun a => String.eqb (an_text a) (upper (quadrant_name q))
                         && in_rect r (an_x a) (an_y a))%bool
               annotations = true.
Proof.
  destruct x as [xn xd], y as [yn yd]. intros Hbox Hq.
  unfold quadrant_of in Hq.
  destruct (Qpositive (xn # xd)) eqn:Px, (Qpositive (yn # yd)) eqn:Py,
    (Qnegative (xn # xd)) eqn:Nx, (Qnegative (yn # yd)) eqn:Ny;
    cbn [andb] in Hq; try discriminate; injection Hq as <-.
  all: match goal with
       | |- context [quadrant_name Leading] =>
           exists (mkRect 0 0 3.2 2.2 "lightgreen")
       | |- context [quadrant_name Weakening] =>
           exists (mkRect 0 (-2.2) 3.2 0 "lightyellow")
       | |- context [quadrant_name Lagging] =>
           exists (mkRect (-3.2) (-2.2) 0 0 "#FFCCCB")
       | |- context [quadrant_name Improving] =>
           exists (mkRect (-3.2) 0 0 2.2 "lightblue")
       end.
  all: split; [|split; [|split]];
    [ unfold quadrant_rects; cbn [In]; tauto
    | q_to_z
    | intros r' Hr' Hin'; unfold quadrant_rects in Hr'; cbn [In] in Hr';
      destruct Hr' as [<-|[<-|[<-|[<-|[]]]]]; try reflexivity; exfalso; q_to_z
    | reflexivity ].
Qed.

Lemma shading_follows_signs_witness :
  in_plot_area 0.5 (-1) = true
  /\ quadrant_of 0.5 (-1) = Some Weakening
  /\ exists r, In r quadrant_rects /\ in_rect r 0.5 (-1) = true.
Proof.
  split; [reflexivity|]. split; [reflexivity|].
  destruct (shading_follows_signs 0.5 (-1) Weakening eq_refl eq_refl)
    as (r & H1 & H2 & _).
  exists r. now split.
Defined.

(** ** The progress bar *)

Lemma progress_fold (n : positive) (l : list (string * string)) :
  forall (count : nat) (calls : list Q),
    fold_left
      (fun (st : nat * list Q) (_ : string * string) =>
         let count := S (fst st) in
         (count, snd st ++ [Z.of_nat count # n]))
      l (count, calls)
    = ((count + length l)%nat,
       calls ++ map (fun i => Z.of_nat (S (count + i)) # n) (seq 0 (length l))).
Proof.
  induction l as [|kv l IH]; intros count calls.
  - simpl. now rewrite Nat.add_0_r, app_nil_r.
  - cbn [fold_left fst snd length]. rewrite IH. f_equal; [lia|].
    rewrite <- app_assoc. f_equal. cbn [seq map app].
    rewrite Nat.add_0_r. f_equal.
    rewrite <- seq_shift, map_map. apply map_ext. intros i.
    now rewrite Nat.add_succ_r.
Qed.

Lemma download_progress_values (names : list (string * string)) :
  download_progress names
  = map (fun i => Z.of_nat (S i) # Pos.of_nat (length names))
        (seq 0 (length names)).
Proof. unfold download_progress. now rewrite progress_fold. Qed.

(** X15: the download loop reports one progress value per ticker; each value
    lies in (0, 1], the values increase strictly, and the last one is
    exactly 1, so the progress bar is never given a value above 1. *)
Theorem progress_stays_within_bounds (names : list (string * string)) :
  length (download_progress names) = length names
  /\ Forall (fun q => (0 < q)%Q /\ (q <= 1)%Q) (download_progress names)
  /\ (forall i j a b,
        (i < j)%nat ->
        nth_error (download_progress names) i = Some a ->
        nth_error (download_progress names) j = Some b ->
        (a < b)%Q)
  /\ (names <> [] ->
      exists q, iloc_last (download_progress names) = Some q /\ (q == 1)%Q).
Proof.
  rewrite download_progress_values.
  set (n := length names).
  assert (Hpos : (0 < n)%nat -> Z.pos (Pos.of_nat n) = Z.of_nat n).
  { intros H. rewrite <- positive_nat_Z, Nat2Pos.id by lia. reflexivity. }
  split; [now rewrite length_map, length_seq|]. split; [|split].
  - apply Forall_map, Forall_forall. intros i Hi. apply in_seq in Hi.
    unfold Qlt, Qle. cbn [Qnum Qden]. rewrite Hpos by lia. lia.
  - intros i j a b Hij Ha Hb.
    rewrite nth_error_map in Ha, Hb.
    destruct (nth_error (seq 0 n) i) as [i'|] eqn:Ei; [|discriminate].
    destruct (nth_error (seq 0 n) j) as [j'|] eqn:Ej; [|discriminate].
    assert (Hi : (i < length (seq 0 n))%nat)
      by (apply nth_error_Some; rewrite Ei; discriminate).
    assert (Hj : (j < length (seq 0 n))%nat)
      by (apply nth_error_Some; rewrite Ej; discriminate).
    rewrite length_seq in Hi, Hj.
    rewrite nth_error_seq in Ei, Ej.
    destruct (Nat.ltb_spec i n) as [_|H]; [|lia].
    destruct (Nat.ltb_spec j n) as [_|H]; [|lia].
    injection Ei as <-. injection Ej as <-.
    injection Ha as <-. injection Hb as <-.
    unfold Qlt. cbn [Qnum Qden]. nia.
  - intros Hne.
    assert (Hn : (0 < n)%nat) by (unfold n; destruct names; [contradiction | simpl; lia]).
    exists (Z.of_nat n # Pos.of_nat n). split.
    + unfold iloc_last. rewrite <- map_rev.
      replace n with (S (n - 1)) at 1 by lia.
      rewrite seq_S, rev_app_distr. cbn [rev app map Nat.add].
      replace (S (n - 1)) with n by lia. reflexivity.
    + unfold Qeq. cbn [Qnum Qden]. rewrite Hpos by exact Hn. lia.
Qed.
